(** * The Envoy sidecar accessor and its configuration-convergence poller

    A shallow embedding of [components/echo/kube/sidecar.go]: the four
    admin snapshot accessors ([Info], [Config], [Clusters], [Listeners]),
    the single-shot [adminRequest] they share, [Logs], and the polling
    operation [WaitForConfig] with the retry loop it drives.

    Conventions.
    - A Go [error] is modelled by its text ([err.Error()]); a nil-able
      error is an [option error].
    - [time.Duration] and clock readings are [Z], in nanoseconds.
    - The remote cluster is an oracle: what the n-th remote execution
      answers, and how long it takes.  Every call made through the
      cluster is appended to a log kept in the [World], so that the
      number, the order and the timing of the calls can be stated.
    - The package [util/retry] that [WaitForConfig] calls is not part
      of the sources at hand; module [retry] below follows the
      specification's description of the loop.
    - The loop runs on fuel; the theorems that say a wait returns give
      the fuel that is enough. *)

From Stdlib Require Import String Ascii List ZArith NArith Lia Bool.
Import ListNotations.

Local Open Scope string_scope.
Local Open Scope Z_scope.

(** ** Strings *)

Module Strings.

(** The line feed written [\n] in the Go format strings. *)
Definition nl : string := String (ascii_of_nat 10) EmptyString.

(** [strings.Contains(s, substr)]: [substr] occurs somewhere within [s]. *)
Fixpoint Contains (s substr : string) : bool :=
  if prefix substr s then true
  else match s with
       | EmptyString => false
       | String _ rest => Contains rest substr
       end.

(** [s] carries [part] verbatim, somewhere inside. *)
Definition embeds (s part : string) : Prop :=
  exists before after, s = before ++ part ++ after.

(** Boolean test that [s] ends with [suffix]. *)
Fixpoint has_suffix (s suffix : string) : bool :=
  if String.eqb s suffix then true
  else match s with
       | EmptyString => false
       | String _ rest => has_suffix rest suffix
       end.

End Strings.
Import Strings.

(** ** Errors and time *)

Definition error : Type := string.

Definition Duration : Type := Z.

Definition Millisecond : Duration := 1000000.
Definition Second : Duration := 1000000000.

(** ** The cluster and the world it is observed in *)

(** One remote execution: [PodExec(podName, namespace, container, command)]. *)
Record ExecCall : Type := mkExecCall {
  exec_pod : string;
  exec_namespace : string;
  exec_container : string;
  exec_command : string
}.

(** What a remote execution answers: the two captured streams, the
    transport error if any, and the time the round trip took. *)
Record ExecReply : Type := mkExecReply {
  reply_stdout : string;
  reply_stderr : string;
  reply_err : option error;
  reply_took : N
}.

(** One log retrieval: [PodLogs(ctx, podName, namespace, container, previousLog)]. *)
Record LogsCall : Type := mkLogsCall {
  logs_pod : string;
  logs_namespace : string;
  logs_container : string;
  logs_previous : bool
}.

(** [cluster.Cluster], restricted to the two operations the sidecar uses.
    The answer may depend on how many calls of the kind came before. *)
Record Cluster : Type := mkCluster {
  cluster_exec : nat -> ExecCall -> ExecReply;
  cluster_logs : nat -> LogsCall -> string * option error
}.

(** A remote execution as it happened: when it was issued, what was
    asked and what came back. *)
Record ExecRecord : Type := mkExecRecord {
  rec_at : Z;
  rec_call : ExecCall;
  rec_reply : ExecReply
}.

Record World : Type := mkWorld {
  clock : Z;
  execs : list ExecRecord;
  logreqs : list LogsCall;
  sleeps : list Duration
}.

(** ** A small state monad over the world *)

Definition M (S A : Type) : Type := S -> A * S.

Definition ret {S A : Type} (a : A) : M S A := fun st => (a, st).

Definition bind {S A B : Type} (m : M S A) (k : A -> M S B) : M S B :=
  fun st => let (a, st') := m st in k a st'.

Declare Scope monad_scope.
Delimit Scope monad_scope with monad.
Notation "x <- m ;; k" := (bind m (fun x => k))
  (at level 61, m at next level, right associativity) : monad_scope.
Notation "' pat <- m ;; k" := (bind m (fun x => match x with pat => k end))
  (at level 61, pat pattern, m at next level, right associativity) : monad_scope.

(** [s.cluster.PodExec(...)]: ask the cluster, let the round trip take
    its time, and log the call. *)
Definition recordExec (call : ExecCall) (r : ExecReply) (w : World) : World :=
  {| clock := clock w + Z.of_N (reply_took r);
     execs := execs w ++ [mkExecRecord (clock w) call r];
     logreqs := logreqs w;
     sleeps := sleeps w |}.

Definition PodExec (c : Cluster) (pod ns container command : string)
  : M World (string * string * option error) :=
  fun w =>
    let call := mkExecCall pod ns container command in
    let r := cluster_exec c (length (execs w)) call in
    ((reply_stdout r, reply_stderr r, reply_err r), recordExec call r w).

(** [s.cluster.PodLogs(ctx, ...)]. *)
Definition PodLogs (c : Cluster) (pod ns container : string) (previousLog : bool)
  : M World (string * option error) :=
  fun w =>
    let call := mkLogsCall pod ns container previousLog in
    (cluster_logs c (length (logreqs w)) call,
     {| clock := clock w;
        execs := execs w;
        logreqs := logreqs w ++ [call];
        sleeps := sleeps w |}).

(** Blocking for [d]: a non-positive duration elapses at once. *)
Definition sleep (d : Duration) (w : World) : World :=
  {| clock := clock w + Z.max 0 d;
     execs := execs w;
     logreqs := logreqs w;
     sleeps := sleeps w ++ [d] |}.

(** ** The structured decoder *)

(** The four message types the admin endpoints answer with
    ([admin.ServerInfo], [admin.ConfigDump], [admin.Clusters],
    [admin.Listeners]). *)
Module admin.
Inductive MsgKind : Type :=
| ServerInfo
| ConfigDump
| Clusters
| Listeners.
End admin.

(** [util/protomarshal] and the [admin] message types, kept abstract:
    the permissive decoder and the indenting renderer. *)
Record Protomarshal : Type := mkProtomarshal {
  msg : admin.MsgKind -> Type;
  UnmarshalAllowUnknown : forall k : admin.MsgKind, string -> error + msg k;
  MarshalIndent : forall k : admin.MsgKind, msg k -> string -> error + string
}.

(** ** The sidecar *)

Definition proxyContainerName : string := "istio-proxy".

Definition defaultConfigTimeout : Duration := Second * 30.

Definition defaultConfigDelay : Duration := Millisecond * 100.

Record sidecar : Type := mkSidecar {
  podNamespace : string;
  podName : string;
  cluster : Cluster
}.

Section Accessor.

Variable pm : Protomarshal.

Local Open Scope monad_scope.

(** The text of the error [adminRequest] returns when the execution fails. *)
Definition execError (s : sidecar) (err : error) (command output : string) : error :=
  "failed exec on pod " ++ podNamespace s ++ "/" ++ podName s ++ ": " ++ err
    ++ ". Command: " ++ command ++ ". Output:" ++ nl ++ output.

(** The text of the error [adminRequest] returns when decoding fails. *)
Definition parseError (path : string) (err : error) (stdout : string) : error :=
  "failed parsing Envoy admin response from '/" ++ path ++ "': " ++ err
    ++ nl ++ "Response JSON: " ++ stdout.

Definition adminCommand (path : string) : string :=
  "pilot-agent request GET " ++ path.

(** [adminRequest(path, out)]: the message written into [out] is the
    value returned on the right. *)
Definition adminRequest (s : sidecar) (path : string) (k : admin.MsgKind)
  : M World (error + msg pm k) :=
  let command := adminCommand path in
  '(stdout, stderr, err) <- PodExec (cluster s) (podName s) (podNamespace s)
                                    proxyContainerName command ;;
  match err with
  | Some e => ret (inl (execError s e command (stdout ++ stderr)))
  | None =>
      match UnmarshalAllowUnknown pm k stdout with
      | inl e => ret (inl (parseError path e stdout))
      | inr out => ret (inr out)
      end
  end.

Definition Info (s : sidecar) : M World (error + msg pm admin.ServerInfo) :=
  adminRequest s "server_info" admin.ServerInfo.

Definition Config (s : sidecar) : M World (error + msg pm admin.ConfigDump) :=
  adminRequest s "config_dump" admin.ConfigDump.

Definition Clusters (s : sidecar) : M World (error + msg pm admin.Clusters) :=
  adminRequest s "clusters?format=json" admin.Clusters.

Definition Listeners (s : sidecar) : M World (error + msg pm admin.Listeners) :=
  adminRequest s "listeners?format=json" admin.Listeners.

Definition Logs (s : sidecar) : M World (string * option error) :=
  PodLogs (cluster s) (podName s) (podNamespace s) proxyContainerName false.

(** The four snapshot kinds side by side: the accessor of each kind
    and the admin path it is expected to query. *)
Definition snapshot (k : admin.MsgKind) (s : sidecar) : M World (error + msg pm k) :=
  match k return M World (error + msg pm k) with
  | admin.ServerInfo => Info s
  | admin.ConfigDump => Config s
  | admin.Clusters => Clusters s
  | admin.Listeners => Listeners s
  end.

Definition endpoint (k : admin.MsgKind) : string :=
  match k with
  | admin.ServerInfo => "server_info"
  | admin.ConfigDump => "config_dump"
  | admin.Clusters => "clusters?format=json"
  | admin.Listeners => "listeners?format=json"
  end.

Definition allKinds : list admin.MsgKind :=
  [admin.ServerInfo; admin.ConfigDump; admin.Clusters; admin.Listeners].

End Accessor.

(** ** The retry loop *)

Module retry.

(** Modelled from the spec: the package [util/retry] is not among the
    sources; only its use in [WaitForConfig] is.  This is the spec's
    Poll Policy (section 3): a backoff delay, a total timeout, and
    whatever further options say.  The spec lets the delay back off
    progressively when the policy says so and leaves the progression
    open: the policy carries it as [next_delay], the delay of the next
    wait as a function of the delay of this one. *)
Record config : Type := mkConfig {
  timeout : Duration;
  delay : Duration;
  next_delay : Duration -> Duration
}.

(** Modelled from the spec: a retry option of [util/retry].  An option
    edits the policy, which is how a caller overrides or extends it. *)
Definition Option : Type := config -> config.

(** Modelled from the spec: [retry.Timeout], the option that sets the
    total timeout. *)
Definition Timeout (t : Duration) : Option :=
  fun c => {| timeout := t; delay := delay c; next_delay := next_delay c |}.

(** Modelled from the spec: [retry.BackoffDelay], the option that sets
    the backoff delay. *)
Definition BackoffDelay (d : Duration) : Option :=
  fun c => {| timeout := timeout c; delay := d; next_delay := next_delay c |}.

(** Modelled from the spec: how [util/retry] builds the policy from
    its options.  They apply in the order given, so a later option
    overrides an earlier one. *)
Definition applyOptions (options : list Option) (c : config) : config :=
  fold_left (fun acc o => o acc) options c.

(** The function handed to the loop, as [WaitForConfig] writes it: it
    answers [(result, completed, err)].  It runs over the world and
    over the variables [V] its closure captures. *)
Definition RetriableFunc (V A : Type) : Type :=
  M (V * World) (option A * bool * option error).

(** Modelled from the spec: the error [util/retry] reports when the
    budget is exhausted, which is the last transient error (section
    4.2, Retry-Wait). *)
Definition timeoutError (lasterr : option error) : error :=
  match lasterr with
  | Some e => e
  | None => "timeout"
  end.

Section Loop.

Context {V A : Type}.
Variable fn : RetriableFunc V A.
Variable cfg : config.
Variable start : Z.

(** Modelled from the spec: the loop of [retry.UntilComplete], which
    is the state machine of section 4.2.  An attempt that reports
    completion ends the loop with the attempt's own error.  An attempt
    that does not is a transient outcome: the loop then gives up with
    the last transient error once the time elapsed since [start] has
    reached the total timeout, and otherwise sleeps the current backoff
    delay and tries again. *)
Fixpoint loop (fuel : nat) (d : Duration) (lasterr : option error)
         (st : V * World) : option ((option A * option error) * (V * World)) :=
  match fuel with
  | O => None
  | S fuel' =>
      let '((result, completed, err), st1) := fn st in
      if completed then Some ((result, err), st1)
      else
        let lasterr' := match err with
                        | Some e => Some e
                        | None => lasterr
                        end in
        if timeout cfg <=? clock (snd st1) - start
        then Some ((None, Some (timeoutError lasterr')), st1)
        else loop fuel' (next_delay cfg d) lasterr' (fst st1, sleep d (snd st1))
  end.

End Loop.

(** Modelled from the spec: [retry.UntilComplete(fn, options...)].
    The options edit the package's own default policy [defaults], and
    the loop starts at once with the configured delay. *)
Definition UntilComplete {V A : Type} (defaults : config) (fuel : nat)
           (fn : RetriableFunc V A) (options : list Option) (st : V * World)
  : option ((option A * option error) * (V * World)) :=
  let cfg := applyOptions options defaults in
  loop fn cfg (clock (snd st)) fuel (delay cfg) None st.

End retry.

(** ** Waiting for the configuration *)

Section Poller.

Variable pm : Protomarshal.

(** The default policy of the retry package, which the two options
    [WaitForConfig] always passes override in timeout and delay. *)
Variable retryDefaults : retry.config.

(** A decoded configuration snapshot, [*admin.ConfigDump]. *)
Definition ConfigDump : Type := msg pm admin.ConfigDump.

(** The caller's acceptance predicate: from a snapshot to [(bool, error)]. *)
Definition Accept : Type := ConfigDump -> bool * option error.

Definition unresolvedAny : string := "could not resolve Any message type".

Definition untypedAny : string := "Any JSON doesn't have '@type'".

(** The closure [WaitForConfig] hands to the retry loop.  The captured
    variable [cfg] is assigned from every fetch, failed ones included. *)
Definition attempt (s : sidecar) (accept : Accept)
  : retry.RetriableFunc (option ConfigDump) unit :=
  fun st =>
    let '(r, w) := Config pm s (snd st) in
    match r with
    | inl err =>
        if Contains err unresolvedAny then ((None, true, None), (None, w))
        else if Contains err untypedAny then ((None, true, None), (None, w))
        else ((None, false, Some err), (None, w))
    | inr cfg =>
        let '(accepted, err) := accept cfg in
        match err with
        | Some e => ((None, false, Some e), (Some cfg, w))
        | None =>
            if accepted then ((None, true, None), (Some cfg, w))
            else ((None, true, Some "envoy config rejected"), (Some cfg, w))
        end
    end.

(** The options the loop runs under: the two defaults, then the caller's. *)
Definition waitOptions (options : list retry.Option) : list retry.Option :=
  [retry.BackoffDelay defaultConfigDelay; retry.Timeout defaultConfigTimeout]
    ++ options.

(** The policy that results. *)
Definition waitPolicy (options : list retry.Option) : retry.config :=
  retry.applyOptions (waitOptions options) retryDefaults.

(** The rendering of the captured [cfg] in the diagnostic. *)
Definition configDumpStr (cfg : option ConfigDump) : string :=
  match cfg with
  | None => "nil"
  | Some c =>
      match MarshalIndent pm admin.ConfigDump c "  " with
      | inr b => b
      | inl _ => "nil"
      end
  end.

Definition waitError (err : error) (dump : string) : error :=
  "failed waiting for Envoy configuration: " ++ err
    ++ ". Last config_dump:" ++ nl ++ dump.

(** The polling part of [WaitForConfig]: the error of the loop, and
    the captured [cfg] as the loop left it. *)
Definition poll (fuel : nat) (s : sidecar) (accept : Accept)
           (options : list retry.Option) (w : World)
  : option (option error * option ConfigDump * World) :=
  match retry.UntilComplete retryDefaults fuel (attempt s accept)
                            (waitOptions options) (None, w) with
  | None => None
  | Some ((_, err), (cfg, w')) => Some (err, cfg, w')
  end.

Definition WaitForConfig (fuel : nat) (s : sidecar) (accept : Accept)
           (options : list retry.Option) (w : World)
  : option (option error * World) :=
  match poll fuel s accept options w with
  | None => None
  | Some (Some err, cfg, w') => Some (Some (waitError err (configDumpStr cfg)), w')
  | Some (None, _, w') => Some (None, w')
  end.

End Poller.

(** ** What the logs of one invocation say *)

Section Observations.

Variable pm : Protomarshal.

(** The call every snapshot accessor issues for [path]. *)
Definition adminCall (s : sidecar) (path : string) : ExecCall :=
  mkExecCall (podName s) (podNamespace s) proxyContainerName (adminCommand path).

(** The one call the poller issues, again and again. *)
Definition configCall (s : sidecar) : ExecCall := adminCall s "config_dump".

(** What [adminRequest] makes of the reply it got. *)
Definition adminResult (s : sidecar) (path : string) (k : admin.MsgKind)
           (r : ExecReply) : error + msg pm k :=
  match reply_err r with
  | Some e =>
      inl (execError s e (adminCommand path) (reply_stdout r ++ reply_stderr r))
  | None =>
      match UnmarshalAllowUnknown pm k (reply_stdout r) with
      | inl e => inl (parseError path e (reply_stdout r))
      | inr out => inr out
      end
  end.

(** The snapshot a logged [config_dump] fetch produced, if it did. *)
Definition fetched (s : sidecar) (r : ExecRecord) : option (ConfigDump pm) :=
  match adminResult s "config_dump" admin.ConfigDump (rec_reply r) with
  | inl _ => None
  | inr cfg => Some cfg
  end.

(** The last execution in [recs]. *)
Fixpoint lastRecord (recs : list ExecRecord) : option ExecRecord :=
  match recs with
  | [] => None
  | r :: rest =>
      match rest with
      | [] => Some r
      | _ :: _ => lastRecord rest
      end
  end.

(** The snapshot of the last fetch in [recs]. *)
Definition lastFetched (s : sidecar) (recs : list ExecRecord)
  : option (ConfigDump pm) :=
  match lastRecord recs with
  | Some r => fetched s r
  | None => None
  end.

(** What the attempt reports to the loop when its fetch answers [r]. *)
Definition verdict (s : sidecar) (accept : Accept pm) (r : ExecReply)
  : option unit * bool * option error :=
  match adminResult s "config_dump" admin.ConfigDump r with
  | inl err =>
      if Contains err unresolvedAny then (None, true, None)
      else if Contains err untypedAny then (None, true, None)
      else (None, false, Some err)
  | inr cfg =>
      match accept cfg with
      | (_, Some e) => (None, false, Some e)
      | (true, None) => (None, true, None)
      | (false, None) => (None, true, Some "envoy config rejected")
      end
  end.

(** The last snapshot in [recs] that was fetched and decoded. *)
Definition lastDecoded (s : sidecar) (recs : list ExecRecord)
  : option (ConfigDump pm) :=
  fold_left (fun acc r => match fetched s r with
                          | Some cfg => Some cfg
                          | None => acc
                          end) recs None.

(** The transient error an attempt ends with when the fetch answers
    [r]: an ordinary fetch error, or an error of the predicate.
    [None] when the attempt completes instead. *)
Definition transientError (s : sidecar) (accept : Accept pm) (r : ExecReply)
  : option error :=
  match adminResult s "config_dump" admin.ConfigDump r with
  | inl err =>
      if Contains err unresolvedAny || Contains err untypedAny
      then None else Some err
  | inr cfg => snd (accept cfg)
  end.

(** The moment a logged execution came back. *)
Definition rec_end (r : ExecRecord) : Z :=
  rec_at r + Z.of_N (reply_took (rec_reply r)).

(** Every fetch but the last came back before [deadline]; the last
    one came back at the deadline or after it. *)
Fixpoint polledUntil (deadline : Z) (recs : list ExecRecord) : Prop :=
  match recs with
  | [] => False
  | r :: rest =>
      match rest with
      | [] => deadline <= rec_end r
      | _ :: _ => rec_end r < deadline /\ polledUntil deadline rest
      end
  end.

(** Consecutive executions were issued at least [d] apart. *)
Fixpoint spaced (d : Duration) (recs : list ExecRecord) : Prop :=
  match recs with
  | [] => True
  | r :: rest =>
      match rest with
      | [] => True
      | r' :: _ => rec_at r + d <= rec_at r' /\ spaced d rest
      end
  end.

(** The moment attempt number [j] comes back, counting from an attempt
    issued at time [t] as the [n]-th execution of the cluster with the
    backoff delay at [d], when no attempt before it ends the loop. *)
Fixpoint finishTime (cl : Cluster) (call : ExecCall) (cfg : retry.config)
         (n : nat) (t : Z) (d : Duration) (j : nat) : Z :=
  let t1 := t + Z.of_N (reply_took (cluster_exec cl n call)) in
  match j with
  | O => t1
  | S j' => finishTime cl call cfg (S n) (t1 + Z.max 0 d) (retry.next_delay cfg d) j'
  end.

(** The reading of the spec's invariant on the diagnostic: a failed
    wait reports the last snapshot that was fetched and decoded during
    the invocation, and the marker only when there is none. *)
Definition reportsLastDecoded (retryDefaults : retry.config) (fuel : nat)
           (s : sidecar) (accept : Accept pm) (options : list retry.Option)
           (w : World) : Prop :=
  forall e w',
    WaitForConfig pm retryDefaults fuel s accept options w = Some (Some e, w') ->
    exists cause,
      e = waitError cause
            (configDumpStr pm
               (lastDecoded s (skipn (length (execs w)) (execs w')))).

(** The reading of the spec's property on rejection: the diagnostic of
    a rejected first snapshot shows that snapshot, rendered. *)
Definition rejectionShowsSnapshot (retryDefaults : retry.config) (fuel : nat)
           (s : sidecar) (accept : Accept pm) (options : list retry.Option)
           (w : World) : Prop :=
  let r := cluster_exec (cluster s) (length (execs w)) (configCall s) in
  forall c,
    adminResult s "config_dump" admin.ConfigDump r = inr c ->
    accept c = (false, None) ->
    exists txt w',
      MarshalIndent pm admin.ConfigDump c "  " = inr txt
      /\ WaitForConfig pm retryDefaults fuel s accept options w
         = Some (Some ("failed waiting for Envoy configuration: envoy config rejected"
                         ++ ". Last config_dump:" ++ nl ++ txt), w')
      /\ execs w' = (execs w ++ [mkExecRecord (clock w) (configCall s) r])%list.

(** The reading of the spec's property on exhaustion: when every fetch
    ends in a transient outcome, the error of the wait names the last
    transient error and shows the last snapshot that was fetched and
    decoded during the invocation. *)
Definition exhaustionShowsLastDecoded (retryDefaults : retry.config) (fuel : nat)
           (s : sidecar) (accept : Accept pm) (options : list retry.Option)
           (w : World) : Prop :=
  (forall i, (length (execs w) <= i)%nat ->
     transientError s accept (cluster_exec (cluster s) i (configCall s)) <> None) ->
  exists recs r e w',
    WaitForConfig pm retryDefaults fuel s accept options w
      = Some (Some ("failed waiting for Envoy configuration: " ++ e
                      ++ ". Last config_dump:" ++ nl
                      ++ configDumpStr pm (lastDecoded s recs)), w')
    /\ execs w' = (execs w ++ recs)%list
    /\ lastRecord recs = Some r
    /\ transientError s accept (rec_reply r) = Some e.

End Observations.

(** ** A concrete deployment to run the definitions on *)

Module Sample.

(** A decoder over plain text: a body that opens a JSON object
    decodes to itself; the body [any] is answered with the decoder's
    complaint about an unknown embedded type; anything else is a
    syntax error.  Rendering indents the text. *)
Definition pm : Protomarshal :=
  {| msg := fun _ => string;
     UnmarshalAllowUnknown := fun _ body =>
       if prefix "{" body then inr body
       else if String.eqb body "any"
            then inl "proto: could not resolve Any message type: type.example/Unknown"
            else inl "syntax error";
     MarshalIndent := fun _ m indent => inr (indent ++ m) |}.

(** A retry package whose waits double. *)
Definition retryDefaults : retry.config :=
  {| retry.timeout := 1000; retry.delay := 10; retry.next_delay := fun d => d * 2 |}.

Definition ok (body : string) (took : N) : ExecReply :=
  mkExecReply body "" None took.

Definition failed (out errout : string) (err : error) (took : N) : ExecReply :=
  mkExecReply out errout (Some err) took.

(** A cluster that answers the n-th execution with the n-th reply of
    [script], and with [rest] once the script is over. *)
Definition scripted (script : list ExecReply) (rest : ExecReply) : Cluster :=
  {| cluster_exec := fun n _ => nth n script rest;
     cluster_logs := fun _ _ => ("log line", None) |}.

Definition proxy (cl : Cluster) : sidecar :=
  {| podNamespace := "echo"; podName := "a-v1"; cluster := cl |}.

Definition boot : World :=
  {| clock := 0; execs := []; logreqs := []; sleeps := [] |}.

(** Predicates: one that accepts, one that rejects, one that is not
    satisfied yet, and one that waits for a listener to show up. *)
Definition acceptAll : Accept pm := fun _ => (true, None).

Definition rejectAll : Accept pm := fun _ => (false, None).

Definition notYet : Accept pm := fun _ => (false, Some "listener missing").

Definition wantsListener : Accept pm := fun cfg =>
  if Contains cfg "listener" then (true, None) else (false, Some "listener missing").

(** A proxy that always answers with the same body. *)
Definition steady (body : string) (took : N) : Cluster := scripted [] (ok body took).

(** A proxy whose first dump decodes and whose second execution fails. *)
Definition flaky : Cluster :=
  scripted [ok "{}" 10; failed "boom" "" "exit 1" 5] (ok "{}" 0).

(** A proxy that gets its listener on the third dump. *)
Definition converging : Cluster :=
  scripted [ok "{}" 3; ok "{}" 3; ok "{listener}" 3] (ok "{listener}" 3).

(** The same decoder with a renderer that always fails. *)
Definition pmNoRender : Protomarshal :=
  {| msg := msg pm;
     UnmarshalAllowUnknown := UnmarshalAllowUnknown pm;
     MarshalIndent := fun _ _ _ => inl "cannot render" |}.

(** An execution that fails while its output quotes the decoder's
    complaint about an unknown embedded type. *)
Definition quoting : Cluster :=
  scripted [] (failed "log: could not resolve Any message type" "" "exit 1" 2).

End Sample.

(** ** Building the sidecar from its pod *)

(** [corev1.Pod], by the two fields [newSidecar] reads. *)
Module corev1.
Record Pod : Type := mkPod {
  Namespace : string;
  Name : string
}.
End corev1.

Definition newSidecar (pod : corev1.Pod) (cl : Cluster) : sidecar :=
  {| podNamespace := corev1.Namespace pod;
     podName := corev1.Name pod;
     cluster := cl |}.

(** ** The fail-fast variants *)

Module test.

(** Modelled from the spec: [test.Failer], the handle on the calling
    test, is declared outside the sources at hand.  The sidecar uses
    two of its methods: [Helper], which marks the caller as a helper,
    and [Fatal], which aborts the calling test with the error as its
    failure message (spec section 4.2, accessor wrappers).  The state
    of the test is how often [Helper] was called and the failure
    message, if the test was failed. *)
Record Failer : Type := mkFailer {
  helpers : nat;
  failure : option error
}.

(** A computation inside a test: it runs over the test and the world,
    and yields [None] when the test was aborted under way. *)
Definition T (A : Type) : Type := M (Failer * World) (option A).

Definition ret {A : Type} (a : A) : T A := fun st => (Some a, st).

Definition bind {A B : Type} (m : T A) (k : A -> T B) : T B :=
  fun st =>
    match m st with
    | (Some a, st') => k a st'
    | (None, st') => (None, st')
    end.

(** Running a computation of the sidecar from within the test. *)
Definition run {A : Type} (m : M World A) : T A :=
  fun st => let (a, w') := m (snd st) in (Some a, (fst st, w')).

(** Modelled from the spec: [t.Helper()]. *)
Definition Helper : T unit :=
  fun st => (Some tt, (mkFailer (S (helpers (fst st))) (failure (fst st)), snd st)).

(** Modelled from the spec: [t.Fatal(err)]; control does not come back. *)
Definition Fatal {A : Type} (err : error) : T A :=
  fun st => (None, (mkFailer (helpers (fst st)) (Some err), snd st)).

End test.

Declare Scope test_scope.
Delimit Scope test_scope with test.
Notation "x <- m ;; k" := (test.bind m (fun x => k))
  (at level 61, m at next level, right associativity) : test_scope.

Section FailFast.

Variable pm : Protomarshal.
Variable retryDefaults : retry.config.

Local Open Scope test_scope.

Definition InfoOrFail (s : sidecar) : test.T (msg pm admin.ServerInfo) :=
  _ <- test.Helper ;;
  r <- test.run (Info pm s) ;;
  match r with
  | inl err => test.Fatal err
  | inr info => test.ret info
  end.

Definition ConfigOrFail (s : sidecar) : test.T (msg pm admin.ConfigDump) :=
  _ <- test.Helper ;;
  r <- test.run (Config pm s) ;;
  match r with
  | inl err => test.Fatal err
  | inr cfg => test.ret cfg
  end.

Definition ClustersOrFail (s : sidecar) : test.T (msg pm admin.Clusters) :=
  _ <- test.Helper ;;
  r <- test.run (Clusters pm s) ;;
  match r with
  | inl err => test.Fatal err
  | inr clusters => test.ret clusters
  end.

Definition ListenersOrFail (s : sidecar) : test.T (msg pm admin.Listeners) :=
  _ <- test.Helper ;;
  r <- test.run (Listeners pm s) ;;
  match r with
  | inl err => test.Fatal err
  | inr listeners => test.ret listeners
  end.

Definition LogsOrFail (s : sidecar) : test.T string :=
  _ <- test.Helper ;;
  r <- test.run (Logs s) ;;
  match r with
  | (_, Some err) => test.Fatal err
  | (logs, None) => test.ret logs
  end.

(** [WaitForConfigOrFail]; the outer [None] is the poll running out of fuel. *)
Definition WaitForConfigOrFail (fuel : nat) (s : sidecar) (accept : Accept pm)
           (options : list retry.Option) (st : test.Failer * World)
  : option (option unit * (test.Failer * World)) :=
  let (_, st1) := test.Helper st in
  match WaitForConfig pm retryDefaults fuel s accept options (snd st1) with
  | None => None
  | Some (Some err, w') => Some (test.Fatal err (fst st1, w'))
  | Some (None, w') => Some (Some tt, (fst st1, w'))
  end.

(** The fail-fast accessor of each snapshot kind. *)
Definition snapshotOrFail (k : admin.MsgKind) (s : sidecar) : test.T (msg pm k) :=
  match k return test.T (msg pm k) with
  | admin.ServerInfo => InfoOrFail s
  | admin.ConfigDump => ConfigOrFail s
  | admin.Clusters => ClustersOrFail s
  | admin.Listeners => ListenersOrFail s
  end.

End FailFast.

(** ** The external echo deployment *)

Module deployment.

Definition ExternalSvc : string := "external".

Definition ExternalHostname : string := "fake.external.com".

(** [strconv.FormatBool]. *)
Definition FormatBool (b : bool) : string := if b then "true" else "false".

(** The types of the framework that [External] handles without looking
    inside: [namespace.Instance], [echo.Instances], the port list,
    [echo.Annotation] and [deployment.Builder]. *)
Record Types : Type := mkTypes {
  NamespaceInstance : Type;
  Instances : Type;
  Ports : Type;
  Annotation : Type;
  Builder : Type
}.

(** [common.TLSSettings], by the fields [build] sets. *)
Record TLSSettings : Type := mkTLSSettings {
  RootCert : string;
  ClientCert : string;
  Key : string;
  Hostname : string
}.

Record AnnotationValue : Type := mkAnnotationValue { Value : string }.

(** [echo.SubsetConfig], by the fields [build] sets; the annotations are
    the entries of the map literal. *)
Record SubsetConfig (ty : Types) : Type := mkSubsetConfig {
  Version : string;
  Annotations : list (Annotation ty * AnnotationValue)
}.

(** [echo.Config], by the fields [build] sets; every other field keeps
    its zero value.  A nil [TLSSettings] pointer is [None]. *)
Record Config (ty : Types) : Type := mkEchoConfig {
  Service : string;
  Namespace : NamespaceInstance ty;
  DefaultHostHeader : string;
  ConfigPorts : Ports ty;
  TLS : option TLSSettings;
  Subsets : list (SubsetConfig ty);
  IPFamilies : string;
  IPFamilyPolicy : string
}.

(** What [build] takes from the rest of the framework: [ports.All()],
    [echo.SidecarInject], [env.IstioSrc], [path.Join], the reading of a
    file ([None] when it cannot be read, on which [file.MustAsString]
    panics) and the builder's [WithConfig]. *)
Record Framework (ty : Types) : Type := mkFramework {
  ports_All : Ports ty;
  SidecarInject : Annotation ty;
  IstioSrc : string;
  Join : string -> string -> string;
  AsString : string -> option string;
  WithConfig : Builder ty -> Config ty -> Builder ty
}.

Arguments Version {ty}.
Arguments Annotations {ty}.
Arguments Service {ty}.
Arguments Namespace {ty}.
Arguments DefaultHostHeader {ty}.
Arguments ConfigPorts {ty}.
Arguments TLS {ty}.
Arguments Subsets {ty}.
Arguments IPFamilies {ty}.
Arguments IPFamilyPolicy {ty}.
Arguments ports_All {ty}.
Arguments SidecarInject {ty}.
Arguments IstioSrc {ty}.
Arguments Join {ty}.
Arguments AsString {ty}.
Arguments WithConfig {ty}.

Record External (ty : Types) : Type := mkExternal {
  ExternalNamespace : NamespaceInstance ty;
  All : Instances ty
}.

Arguments ExternalNamespace {ty}.
Arguments All {ty}.

(** [resource.Context], by the one setting [build] reads. *)
Record Context : Type := mkContext { EnableDualStack : bool }.

(** [External.build].  The result is [None] when a [MustAsString]
    panics; the three files are read in the order of the literal. *)
Definition build {ty : Types} (fw : Framework ty) (e : External ty) (t : Context)
           (b : Builder ty) : option (Builder ty) :=
  match AsString fw (Join fw (IstioSrc fw) "tests/testdata/certs/dns/root-cert.pem") with
  | None => None
  | Some rootCert =>
  match AsString fw (Join fw (IstioSrc fw) "tests/testdata/certs/dns/cert-chain.pem") with
  | None => None
  | Some clientCert =>
  match AsString fw (Join fw (IstioSrc fw) "tests/testdata/certs/dns/key.pem") with
  | None => None
  | Some key =>
      let config :=
        {| Service := ExternalSvc;
           Namespace := ExternalNamespace e;
           DefaultHostHeader := ExternalHostname;
           ConfigPorts := ports_All fw;
           TLS := Some {| RootCert := rootCert;
                          ClientCert := clientCert;
                          Key := key;
                          Hostname := "server.default.svc" |};
           Subsets := [ {| Version := "v1";
                           Annotations :=
                             [(SidecarInject fw, {| Value := FormatBool false |})] |} ];
           IPFamilies := "";
           IPFamilyPolicy := "" |} in
      let config :=
        if EnableDualStack t
        then {| Service := Service config;
                Namespace := Namespace config;
                DefaultHostHeader := DefaultHostHeader config;
                ConfigPorts := ConfigPorts config;
                TLS := TLS config;
                Subsets := Subsets config;
                IPFamilies := "IPv6, IPv4";
                IPFamilyPolicy := "RequireDualStack" |}
        else config in
      Some (WithConfig fw b config)
  end end end.

End deployment.

(** ** A concrete test and a concrete framework *)

Module Fixture.

Definition pod : corev1.Pod := {| corev1.Namespace := "echo"; corev1.Name := "a-v1" |}.

(** A test that has not failed. *)
Definition started : test.Failer := {| test.helpers := 0; test.failure := None |}.

(** A framework over plain data: namespaces and annotations are names,
    ports are numbers, and a builder is the list of the services it was
    given a configuration for.  The key file of the certificates is
    missing when [withKey] is off. *)
Definition types : deployment.Types :=
  {| deployment.NamespaceInstance := string;
     deployment.Instances := list string;
     deployment.Ports := list Z;
     deployment.Annotation := string;
     deployment.Builder := list string |}.

Definition framework (withKey : bool) : deployment.Framework types :=
  deployment.mkFramework types
    [80; 443]
    "sidecar.istio.io/inject"
    "/src"
    (fun a b => a ++ "/" ++ b)
    (fun path =>
       if has_suffix path "key.pem" then (if withKey then Some "KEY" else None)
       else Some "CERT")
    (fun b c => (b ++ [deployment.Service c])%list).

Definition external : deployment.External types :=
  deployment.mkExternal types "external-ns" [].

End Fixture.

(** * Facts about strings *)

Lemma prefix_append (a b : string) : prefix a (a ++ b) = true.
Proof.
  induction a as [|c a IH]; simpl.
  - now destruct b.
  - destruct (ascii_dec c c) as [_|ne]; [exact IH | now destruct ne].
Qed.

Lemma prefix_split (a s : string) :
  prefix a s = true -> exists rest, s = a ++ rest.
Proof.
  revert s; induction a as [|c a IH]; intros s H.
  - now exists s.
  - destruct s as [|c' s]; simpl in H; [discriminate|].
    destruct (ascii_dec c c') as [->|_]; [|discriminate].
    destruct (IH _ H) as [rest ->]. now exists rest.
Qed.

Lemma Contains_prefix (s part : string) :
  prefix part s = true -> Contains s part = true.
Proof.
  destruct s; cbn [Contains]; intros ->; reflexivity.
Qed.

Lemma Contains_embeds (s part : string) :
  Contains s part = true <-> embeds s part.
Proof.
  split.
  - induction s as [|c s IH]; cbn [Contains].
    + destruct (prefix part "") eqn:P; [|intros; discriminate]. intros _.
      destruct (prefix_split _ _ P) as [rest E]. now exists "", rest.
    + destruct (prefix part (String c s)) eqn:P.
      * intros _. destruct (prefix_split _ _ P) as [rest E]. now exists "", rest.
      * intros H. destruct (IH H) as (before & after & ->).
        now exists (String c before), after.
  - intros (before & after & ->).
    induction before as [|c before IH].
    + apply Contains_prefix. exact (prefix_append part after).
    + change (String c before ++ part ++ after)%string
        with (String c (before ++ part ++ after)).
      cbn [Contains]. rewrite IH. now destruct (prefix _ _).
Qed.

Lemma append_assoc (a b c : string) : ((a ++ b) ++ c = a ++ (b ++ c))%string.
Proof. induction a as [|x a IH]; simpl; congruence. Qed.

Lemma append_empty (a : string) : (a ++ "" = a)%string.
Proof. induction a as [|x a IH]; simpl; congruence. Qed.

Lemma embeds_at_end (before part : string) : embeds (before ++ part) part.
Proof. exists before, "". now rewrite append_empty. Qed.

Lemma embeds_refl (s : string) : embeds s s.
Proof. exists "", "". now rewrite append_empty. Qed.

Lemma embeds_after (a s part : string) : embeds s part -> embeds (a ++ s) part.
Proof.
  intros (before & after & ->). exists (a ++ before)%string, after.
  now rewrite append_assoc.
Qed.

Lemma has_suffix_append (a b : string) : has_suffix (a ++ b) b = true.
Proof.
  induction a as [|c a IH].
  - change ("" ++ b)%string with b.
    destruct b; cbn [has_suffix]; rewrite String.eqb_refl; reflexivity.
  - change (String c a ++ b)%string with (String c (a ++ b)).
    cbn [has_suffix]. rewrite IH. now destruct (String.eqb _ _).
Qed.

(** * The remote accessor *)

Section AccessorFacts.

Variable pm : Protomarshal.

(** One call of [adminRequest] is one remote execution, whose reply
    decides the result. *)
Lemma adminRequest_run (s : sidecar) (path : string) (k : admin.MsgKind) (w : World) :
  adminRequest pm s path k w =
  let r := cluster_exec (cluster s) (length (execs w)) (adminCall s path) in
  (adminResult pm s path k r, recordExec (adminCall s path) r w).
Proof.
  unfold adminRequest, adminResult, bind, PodExec, adminCall, ret. cbn.
  destruct (reply_err _); [reflexivity|].
  destruct (UnmarshalAllowUnknown _ _ _); reflexivity.
Qed.

Lemma snapshot_run (k : admin.MsgKind) (s : sidecar) (w : World) :
  snapshot pm k s w = adminRequest pm s (endpoint k) k w.
Proof. destruct k; reflexivity. Qed.

Lemma execError_embeds (s : sidecar) (e : error) (command output : string) :
  embeds (execError s e command output) output.
Proof.
  unfold execError. repeat apply embeds_after. apply embeds_refl.
Qed.

Lemma parseError_embeds (path : string) (e : error) (stdout : string) :
  embeds (parseError path e stdout) stdout.
Proof.
  unfold parseError. repeat apply embeds_after. apply embeds_refl.
Qed.

End AccessorFacts.

(** C7.  Each of the four snapshot accessors issues one query, to the
    admin path of its own kind ([server_info], [config_dump],
    [clusters?format=json], [listeners?format=json]); the four commands
    are pairwise distinct; a reply that decodes is returned as the
    message of that kind, and a reply whose body does not decode is
    answered with an error that carries the body verbatim. *)
Theorem snapshot_kinds (pm : Protomarshal) (k : admin.MsgKind) (s : sidecar) (w : World) :
  let call := adminCall s (endpoint k) in
  let r := cluster_exec (cluster s) (length (execs w)) call in
  NoDup (map (fun k' => exec_command (adminCall s (endpoint k'))) allKinds)
  /\ execs (snd (snapshot pm k s w)) = (execs w ++ [mkExecRecord (clock w) call r])%list
  /\ match reply_err r with
     | Some _ => True
     | None =>
         match UnmarshalAllowUnknown pm k (reply_stdout r) with
         | inr m => fst (snapshot pm k s w) = inr m
         | inl _ =>
             exists txt, fst (snapshot pm k s w) = inl txt
                         /\ embeds txt (reply_stdout r)
         end
     end.
Proof.
  intros call r. rewrite snapshot_run, adminRequest_run. fold call r.
  cbn [fst snd]. split; [|split].
  - cbn. repeat constructor; cbn; intuition discriminate.
  - reflexivity.
  - unfold adminResult. destruct (reply_err r); [exact I|].
    destruct (UnmarshalAllowUnknown pm k (reply_stdout r)) as [e|m]; [|reflexivity].
    eexists; split; [reflexivity | apply parseError_embeds].
Qed.

(** C8.  A snapshot fetch is one remote execution and no more: the log
    of executions grows by exactly the one call.  When the execution
    fails, the error returned carries the captured standard output
    followed by the captured standard error; when the body does not
    decode, the error returned carries the body. *)
Theorem adminRequest_single_shot (pm : Protomarshal) (s : sidecar) (path : string)
        (k : admin.MsgKind) (w : World) :
  let call := adminCall s path in
  let r := cluster_exec (cluster s) (length (execs w)) call in
  let out := adminRequest pm s path k w in
  execs (snd out) = (execs w ++ [mkExecRecord (clock w) call r])%list
  /\ length (execs (snd out)) = S (length (execs w))
  /\ match reply_err r with
     | Some _ =>
         exists txt, fst out = inl txt
                     /\ embeds txt (reply_stdout r ++ reply_stderr r)
     | None =>
         match UnmarshalAllowUnknown pm k (reply_stdout r) with
         | inl _ => exists txt, fst out = inl txt /\ embeds txt (reply_stdout r)
         | inr m => fst out = inr m
         end
     end.
Proof.
  intros call r out. unfold out. rewrite adminRequest_run. fold call r.
  cbn [fst snd recordExec execs]. split; [reflexivity|split].
  - rewrite length_app. cbn. lia.
  - unfold adminResult. destruct (reply_err r).
    + eexists; split; [reflexivity | apply execError_embeds].
    + destruct (UnmarshalAllowUnknown pm k (reply_stdout r)) as [e|m]; [|reflexivity].
      eexists; split; [reflexivity | apply parseError_embeds].
Qed.

(** C10.  [Logs] asks the log channel once, for the proxy container of
    the pod, and never restricts the request: the flag it passes is
    [false] whatever the sidecar and the state of the world. *)
Theorem Logs_whole_log (s : sidecar) (w : World) :
  logreqs (snd (Logs s w)) =
    (logreqs w ++ [mkLogsCall (podName s) (podNamespace s) proxyContainerName false])%list
  /\ fst (Logs s w) =
       cluster_logs (cluster s) (length (logreqs w))
         (mkLogsCall (podName s) (podNamespace s) proxyContainerName false)
  /\ execs (snd (Logs s w)) = execs w.
Proof. repeat split. Qed.

(** * The convergence poller *)

Lemma lastRecord_snoc (recs : list ExecRecord) (r : ExecRecord) :
  lastRecord (recs ++ [r]) = Some r.
Proof.
  induction recs as [|x recs IH]; [reflexivity|].
  cbn [app lastRecord]. rewrite IH. now destruct recs.
Qed.

Lemma lastRecord_cons (x : ExecRecord) (recs : list ExecRecord) :
  recs <> [] -> lastRecord (x :: recs) = lastRecord recs.
Proof. destruct recs; [congruence | reflexivity]. Qed.

Lemma skipn_own_length {A : Type} (xs ys : list A) :
  skipn (length xs) (xs ++ ys) = ys.
Proof. induction xs; [reflexivity | assumption]. Qed.

Section PollerFacts.

Variable pm : Protomarshal.
Variable s : sidecar.
Variable accept : Accept pm.

Lemma Config_run (w : World) :
  Config pm s w =
  let r := cluster_exec (cluster s) (length (execs w)) (configCall s) in
  (adminResult pm s "config_dump" admin.ConfigDump r, recordExec (configCall s) r w).
Proof. apply adminRequest_run. Qed.

(** An attempt is one fetch; its reply decides the verdict, and the
    captured [cfg] becomes what this fetch produced. *)
Lemma attempt_run (v : option (ConfigDump pm)) (w : World) :
  attempt pm s accept (v, w) =
  let r := cluster_exec (cluster s) (length (execs w)) (configCall s) in
  (verdict pm s accept r,
   (fetched pm s (mkExecRecord (clock w) (configCall s) r), recordExec (configCall s) r w)).
Proof.
  unfold attempt. cbn [snd]. rewrite Config_run. cbv zeta.
  unfold verdict, fetched. cbn [rec_reply].
  destruct (adminResult pm s "config_dump" admin.ConfigDump _) as [err|cfg].
  - destruct (Contains err unresolvedAny); [reflexivity|].
    destruct (Contains err untypedAny); reflexivity.
  - destruct (accept cfg) as [[|] [e|]]; reflexivity.
Qed.

Lemma verdict_transient (r : ExecReply) (e : error) :
  transientError pm s accept r = Some e ->
  verdict pm s accept r = (None, false, Some e).
Proof.
  unfold transientError, verdict.
  destruct (adminResult pm s "config_dump" admin.ConfigDump r) as [err|cfg].
  - destruct (Contains err unresolvedAny); [discriminate|].
    destruct (Contains err untypedAny); [discriminate|].
    cbn. congruence.
  - destruct (accept cfg) as [[|] [e'|]]; cbn; congruence.
Qed.

End PollerFacts.

Section LoopFacts.

Variable pm : Protomarshal.
Variable s : sidecar.
Variable accept : Accept pm.
Variable cfg : retry.config.
Variable start : Z.

(** One turn of the loop, spelled out on the reply of its fetch. *)
Lemma loop_step (fuel : nat) (d : Duration) (lasterr : option error)
      (v : option (ConfigDump pm)) (w : World) :
  retry.loop (attempt pm s accept) cfg start (S fuel) d lasterr (v, w) =
  let r := cluster_exec (cluster s) (length (execs w)) (configCall s) in
  let v1 := fetched pm s (mkExecRecord (clock w) (configCall s) r) in
  let w1 := recordExec (configCall s) r w in
  match verdict pm s accept r with
  | (result, true, err) => Some ((result, err), (v1, w1))
  | (_, false, err) =>
      let lasterr' := match err with
                      | Some e => Some e
                      | None => lasterr
                      end in
      if retry.timeout cfg <=? clock w1 - start
      then Some ((None, Some (retry.timeoutError lasterr')), (v1, w1))
      else retry.loop (attempt pm s accept) cfg start fuel
             (retry.next_delay cfg d) lasterr' (v1, sleep d w1)
  end.
Proof.
  cbn [retry.loop]. rewrite attempt_run. cbv zeta.
  destruct (verdict pm s accept _) as [[result completed] err].
  destruct completed; reflexivity.
Qed.

(** However the loop ends, the captured [cfg] is what the last fetch
    produced, and at least one fetch was made. *)
Lemma loop_last_fetch (fuel : nat) :
  forall d lasterr v w out v' w',
    retry.loop (attempt pm s accept) cfg start fuel d lasterr (v, w)
      = Some (out, (v', w')) ->
    exists recs r,
      execs w' = (execs w ++ recs ++ [r])%list /\ v' = fetched pm s r.
Proof.
  induction fuel as [|fuel IH]; intros d lasterr v w out v' w' H; [discriminate|].
  rewrite loop_step in H. cbv zeta in H.
  set (r := cluster_exec _ _ _) in H.
  destruct (verdict pm s accept r) as [[result completed] err].
  destruct completed.
  - inversion H; subst. exists [], (mkExecRecord (clock w) (configCall s) r).
    split; reflexivity.
  - destruct (retry.timeout cfg <=? _).
    + inversion H; subst. exists [], (mkExecRecord (clock w) (configCall s) r).
      split; reflexivity.
    + apply IH in H. destruct H as (recs & r' & E & ->).
      exists (mkExecRecord (clock w) (configCall s) r :: recs), r'.
      split; [|reflexivity]. rewrite E. cbn [sleep recordExec execs].
      now rewrite <- app_assoc.
Qed.

(** While every fetch ends in a transient error and the waits are
    positive, the loop keeps trying until the timeout has elapsed and
    then reports the transient error of its last attempt. *)
Lemma loop_transient (fuel : nat) :
  forall d lasterr v w,
    0 < retry.delay cfg ->
    (forall d', retry.delay cfg <= d' -> retry.delay cfg <= retry.next_delay cfg d') ->
    retry.delay cfg <= d ->
    (forall i, (length (execs w) <= i)%nat ->
       transientError pm s accept (cluster_exec (cluster s) i (configCall s)) <> None) ->
    (Z.to_nat (start + retry.timeout cfg - clock w) < fuel)%nat ->
    exists recs r e w',
      retry.loop (attempt pm s accept) cfg start fuel d lasterr (v, w)
        = Some ((None, Some e), (fetched pm s r, w'))
      /\ execs w' = (execs w ++ recs)%list
      /\ lastRecord recs = Some r
      /\ transientError pm s accept (rec_reply r) = Some e
      /\ polledUntil (start + retry.timeout cfg) recs
      /\ start + retry.timeout cfg <= clock w'.
Proof.
  induction fuel as [|fuel IH]; intros d lasterr v w Hpos Hgrow Hd Htr Hfuel; [lia|].
  rewrite loop_step. cbv zeta.
  set (r := cluster_exec (cluster s) (length (execs w)) (configCall s)).
  set (rc := mkExecRecord (clock w) (configCall s) r).
  destruct (transientError pm s accept r) as [e|] eqn:Te;
    [|exfalso; now apply (Htr (length (execs w)) (le_n _))].
  rewrite (verdict_transient _ _ _ _ _ Te).
  destruct (retry.timeout cfg <=? clock (recordExec (configCall s) r w) - start) eqn:Hto.
  - apply Z.leb_le in Hto.
    exists [rc], rc, e, (recordExec (configCall s) r w).
    repeat split; try reflexivity; try exact Te.
    + cbn in *. unfold rec_end. cbn. lia.
    + lia.
  - apply Z.leb_gt in Hto. cbn [recordExec clock] in Hto.
    destruct (IH (retry.next_delay cfg d) (Some e) (fetched pm s rc)
                 (sleep d (recordExec (configCall s) r w)))
      as (recs & r' & e' & w' & Hrun & Hex & Hlast & Hte & Hpoll & Hclk); auto.
    + intros i Hi. apply Htr. cbn in Hi. rewrite length_app in Hi. cbn in Hi. lia.
    + cbn. lia.
    + exists (rc :: recs), r', e', w'.
      assert (Hne : recs <> []) by (intros ->; exact Hpoll).
      repeat split; try assumption.
      * rewrite Hex. cbn [sleep recordExec execs]. now rewrite <- app_assoc.
      * now rewrite lastRecord_cons.
      * destruct recs as [|x recs]; [congruence|].
        split; [|exact Hpoll]. unfold rec_end. cbn. lia.
Qed.

Lemma verdict_retry (r : ExecReply) (c : ConfigDump pm) (b : bool) (e : error) :
  adminResult pm s "config_dump" admin.ConfigDump r = inr c ->
  accept c = (b, Some e) ->
  verdict pm s accept r = (None, false, Some e).
Proof. unfold verdict. intros -> ->. now destruct b. Qed.

Lemma verdict_accepted (r : ExecReply) (c : ConfigDump pm) :
  adminResult pm s "config_dump" admin.ConfigDump r = inr c ->
  accept c = (true, None) ->
  verdict pm s accept r = (None, true, None).
Proof. unfold verdict. now intros -> ->. Qed.

Lemma verdict_rejected (r : ExecReply) (c : ConfigDump pm) :
  adminResult pm s "config_dump" admin.ConfigDump r = inr c ->
  accept c = (false, None) ->
  verdict pm s accept r = (None, true, Some "envoy config rejected").
Proof. unfold verdict. now intros -> ->. Qed.

Lemma verdict_unparseable (r : ExecReply) (err : error) :
  adminResult pm s "config_dump" admin.ConfigDump r = inl err ->
  Contains err unresolvedAny = true \/ Contains err untypedAny = true ->
  verdict pm s accept r = (None, true, None).
Proof.
  unfold verdict. intros -> [H|H]; rewrite H; [reflexivity|].
  now destruct (Contains err unresolvedAny).
Qed.

(** When the predicate errs on the first [k] snapshots and accepts the
    next, and the timeout leaves room for those attempts, the loop
    ends in success after [k] waits and [S k] fetches, issued at least
    the configured delay apart. *)
Lemma loop_converges (k : nat) :
  forall fuel d lasterr v w,
    (k < fuel)%nat ->
    (forall d', retry.delay cfg <= d' -> retry.delay cfg <= retry.next_delay cfg d') ->
    retry.delay cfg <= d ->
    (forall j, (j < k)%nat ->
       exists c e,
         adminResult pm s "config_dump" admin.ConfigDump
           (cluster_exec (cluster s) (length (execs w) + j) (configCall s)) = inr c
         /\ accept c = (false, Some e)) ->
    (exists c,
        adminResult pm s "config_dump" admin.ConfigDump
          (cluster_exec (cluster s) (length (execs w) + k) (configCall s)) = inr c
        /\ accept c = (true, None)) ->
    (forall j, (j < k)%nat ->
       finishTime (cluster s) (configCall s) cfg (length (execs w)) (clock w) d j
         - start < retry.timeout cfg) ->
    exists r0 rest v' w',
      retry.loop (attempt pm s accept) cfg start fuel d lasterr (v, w)
        = Some ((None, None), (v', w'))
      /\ execs w' = (execs w ++ r0 :: rest)%list
      /\ length rest = k
      /\ rec_at r0 = clock w
      /\ spaced (retry.delay cfg) (r0 :: rest)
      /\ length (sleeps w') = (length (sleeps w) + k)%nat.
Proof.
  induction k as [|k IH]; intros fuel d lasterr v w Hfuel Hgrow Hd Hretry Hacc Htime;
    (destruct fuel as [|fuel]; [lia|]); rewrite loop_step; cbv zeta.
  - destruct Hacc as (c & Hres & Hc). rewrite Nat.add_0_r in Hres.
    rewrite (verdict_accepted _ _ Hres Hc).
    do 4 eexists. split; [reflexivity|].
    cbn [recordExec execs sleeps]. repeat split. cbn. lia.
  - destruct (Hretry 0%nat ltac:(lia)) as (c0 & e0 & Hres0 & Hc0).
    rewrite Nat.add_0_r in Hres0. rewrite (verdict_retry _ _ _ _ Hres0 Hc0).
    pose proof (Htime 0%nat ltac:(lia)) as Ht0. cbn [finishTime] in Ht0.
    set (r := cluster_exec (cluster s) (length (execs w)) (configCall s)) in *.
    replace (retry.timeout cfg <=? clock (recordExec (configCall s) r w) - start)
      with false by (symmetry; apply Z.leb_gt; cbn; lia).
    set (w2 := sleep d (recordExec (configCall s) r w)).
    assert (Hlen : length (execs w2) = S (length (execs w)))
      by (cbn; rewrite length_app; cbn; lia).
    destruct (IH fuel (retry.next_delay cfg d) (Some e0)
                 (fetched pm s (mkExecRecord (clock w) (configCall s) r)) w2)
      as (r1 & rest & v' & w' & Hrun & Hex & Hn & Hat & Hsp & Hsl).
    + lia.
    + exact Hgrow.
    + now apply Hgrow.
    + intros j Hj. rewrite Hlen.
      destruct (Hretry (S j) ltac:(lia)) as (c & e & Hres & Hc).
      exists c, e. split; [|exact Hc]. rewrite <- Hres. f_equal. f_equal. lia.
    + destruct Hacc as (c & Hres & Hc). exists c. split; [|exact Hc].
      rewrite Hlen, <- Hres. f_equal. f_equal. lia.
    + intros j Hj. rewrite Hlen. exact (Htime (S j) ltac:(lia)).
    + exists (mkExecRecord (clock w) (configCall s) r), (r1 :: rest), v', w'.
      split; [exact Hrun|]. split; [|split; [|split; [|split]]].
      * rewrite Hex. cbn [w2 sleep recordExec execs]. now rewrite <- app_assoc.
      * cbn. lia.
      * reflexivity.
      * cbn [spaced]. split; [|exact Hsp]. rewrite Hat. cbn. lia.
      * rewrite Hsl. cbn. rewrite length_app. cbn. lia.
Qed.

End LoopFacts.

Lemma poll_loop (pm : Protomarshal) (rd : retry.config) (fuel : nat) (s : sidecar)
      (accept : Accept pm) (options : list retry.Option) (w : World) :
  poll pm rd fuel s accept options w =
  match retry.loop (attempt pm s accept) (waitPolicy rd options) (clock w) fuel
                   (retry.delay (waitPolicy rd options)) None (None, w) with
  | None => None
  | Some ((_, err), (cfg, w')) => Some (err, cfg, w')
  end.
Proof. reflexivity. Qed.

Lemma has_suffix_refl (x : string) : has_suffix x x = true.
Proof. destruct x; cbn [has_suffix]; now rewrite String.eqb_refl. Qed.

Lemma has_suffix_after (a s x : string) :
  has_suffix s x = true -> has_suffix (a ++ s) x = true.
Proof.
  intros H. induction a as [|c a IH]; [exact H|].
  change (String c a ++ s)%string with (String c (a ++ s)).
  cbn [has_suffix]. rewrite IH. now destruct (String.eqb _ _).
Qed.

(** C4.  When the first fetch decodes and the predicate accepts that
    snapshot, [WaitForConfig] returns no error, having issued exactly
    that one fetch and never waited. *)
Theorem WaitForConfig_accepts_first
        (pm : Protomarshal) (rd : retry.config) (s : sidecar) (accept : Accept pm)
        (options : list retry.Option) (fuel : nat) (w : World) (c : ConfigDump pm) :
  let r := cluster_exec (cluster s) (length (execs w)) (configCall s) in
  adminResult pm s "config_dump" admin.ConfigDump r = inr c ->
  accept c = (true, None) ->
  exists w',
    WaitForConfig pm rd (S fuel) s accept options w = Some (None, w')
    /\ execs w' = (execs w ++ [mkExecRecord (clock w) (configCall s) r])%list
    /\ sleeps w' = sleeps w.
Proof.
  intros r Hres Hc. unfold WaitForConfig. rewrite poll_loop, loop_step. cbv zeta.
  fold r. rewrite (verdict_accepted _ _ _ _ _ Hres Hc).
  eexists. split; [reflexivity|]. split; reflexivity.
Qed.

(** C3, as the code has it.  When the first fetch decodes and the
    predicate rejects that snapshot without an error, [WaitForConfig]
    returns an error after exactly that one fetch, with no wait and no
    second attempt.  The error reads [failed waiting for Envoy
    configuration: envoy config rejected. Last config_dump:] followed,
    on a new line, by the rendering of the snapshot this fetch
    produced, or by the marker [nil] when that snapshot cannot be
    rendered. *)
Theorem WaitForConfig_rejection_is_final
        (pm : Protomarshal) (rd : retry.config) (s : sidecar) (accept : Accept pm)
        (options : list retry.Option) (fuel : nat) (w : World) (c : ConfigDump pm) :
  let r := cluster_exec (cluster s) (length (execs w)) (configCall s) in
  adminResult pm s "config_dump" admin.ConfigDump r = inr c ->
  accept c = (false, None) ->
  exists w',
    WaitForConfig pm rd (S fuel) s accept options w
      = Some (Some ("failed waiting for Envoy configuration: envoy config rejected"
                      ++ ". Last config_dump:" ++ nl
                      ++ match MarshalIndent pm admin.ConfigDump c "  " with
                         | inr rendered => rendered
                         | inl _ => "nil"
                         end), w')
    /\ execs w' = (execs w ++ [mkExecRecord (clock w) (configCall s) r])%list
    /\ sleeps w' = sleeps w.
Proof.
  intros r Hres Hc. unfold WaitForConfig. rewrite poll_loop, loop_step. cbv zeta.
  fold r. rewrite (verdict_rejected _ _ _ _ _ Hres Hc).
  unfold fetched. cbn [rec_reply]. rewrite Hres.
  eexists. split; [reflexivity|]. split; reflexivity.
Qed.

(** C2.  What the code does when the first fetch fails with an error
    whose text carries one of the two signatures of an undecodable
    embedded message: the poll stops after that one fetch, without
    waiting, and [WaitForConfig] returns no error at all. *)
Theorem WaitForConfig_unparseable_returns_nil
        (pm : Protomarshal) (rd : retry.config) (s : sidecar) (accept : Accept pm)
        (options : list retry.Option) (fuel : nat) (w : World) (err : error) :
  let r := cluster_exec (cluster s) (length (execs w)) (configCall s) in
  adminResult pm s "config_dump" admin.ConfigDump r = inl err ->
  Contains err unresolvedAny = true \/ Contains err untypedAny = true ->
  exists w',
    WaitForConfig pm rd (S fuel) s accept options w = Some (None, w')
    /\ execs w' = (execs w ++ [mkExecRecord (clock w) (configCall s) r])%list
    /\ sleeps w' = sleeps w.
Proof.
  intros r Hres Hsig. unfold WaitForConfig. rewrite poll_loop, loop_step. cbv zeta.
  fold r. rewrite (verdict_unparseable _ _ _ _ _ Hres Hsig).
  eexists. split; [reflexivity|]. split; reflexivity.
Qed.

(** C1, as the code has it.  When [WaitForConfig] ends in an error, the
    snapshot in the diagnostic is the one of the LAST fetch of this
    invocation: its rendering when that fetch decoded (and the
    rendering itself succeeded), and the marker [nil] when that fetch
    failed.  At least one fetch was made. *)
Theorem WaitForConfig_reports_last_fetch
        (pm : Protomarshal) (rd : retry.config) (s : sidecar) (accept : Accept pm)
        (options : list retry.Option) (fuel : nat) (w w' : World) (e : error) :
  WaitForConfig pm rd fuel s accept options w = Some (Some e, w') ->
  exists cause recs,
    execs w' = (execs w ++ recs)%list
    /\ recs <> []
    /\ e = waitError cause (configDumpStr pm (lastFetched pm s recs)).
Proof.
  unfold WaitForConfig. rewrite poll_loop.
  destruct (retry.loop _ _ _ _ _ _ _) as [[[res err] [v w1]]|] eqn:Hrun; [|discriminate].
  destruct (loop_last_fetch _ _ _ _ _ _ _ _ _ _ _ _ _ Hrun) as (recs & r & Hex & ->).
  destruct err as [cause|]; intros H; inversion H; subst.
  exists cause, (recs ++ [r])%list. split; [exact Hex|]. split.
  - now destruct recs.
  - unfold lastFetched. now rewrite lastRecord_snoc.
Qed.

(** C5, as the code has it.  When every fetch of the invocation ends
    in a transient outcome (an ordinary fetch or decode error, or an
    error of the predicate) and the waits are positive, each such
    outcome that leaves time on the budget is followed by another
    fetch, and the poll stops only with the fetch that comes back at or
    after the timeout.  The error then returned reads [failed waiting
    for Envoy configuration:], the transient error of that last
    attempt, [. Last config_dump:] and, on a new line, what the LAST
    fetch produced: the rendering of its snapshot, or the marker [nil]
    when that fetch failed or its snapshot cannot be rendered. *)
Theorem WaitForConfig_transient_until_timeout
        (pm : Protomarshal) (rd : retry.config) (s : sidecar) (accept : Accept pm)
        (options : list retry.Option) (fuel : nat) (w : World) :
  let cfg := waitPolicy rd options in
  0 < retry.delay cfg ->
  (forall d, retry.delay cfg <= d -> retry.delay cfg <= retry.next_delay cfg d) ->
  (forall i, (length (execs w) <= i)%nat ->
     transientError pm s accept (cluster_exec (cluster s) i (configCall s)) <> None) ->
  (Z.to_nat (retry.timeout cfg) < fuel)%nat ->
  exists recs r e w',
    WaitForConfig pm rd fuel s accept options w
      = Some (Some ("failed waiting for Envoy configuration: " ++ e
                      ++ ". Last config_dump:" ++ nl
                      ++ match fetched pm s r with
                         | None => "nil"
                         | Some c =>
                             match MarshalIndent pm admin.ConfigDump c "  " with
                             | inr rendered => rendered
                             | inl _ => "nil"
                             end
                         end), w')
    /\ execs w' = (execs w ++ recs)%list
    /\ lastRecord recs = Some r
    /\ transientError pm s accept (rec_reply r) = Some e
    /\ polledUntil (clock w + retry.timeout cfg) recs.
Proof.
  intros cfg Hpos Hgrow Htr Hfuel.
  destruct (loop_transient pm s accept cfg (clock w) fuel (retry.delay cfg) None None w)
    as (recs & r & e & w' & Hrun & Hex & Hlast & Hte & Hpoll & _); auto; try lia.
  exists recs, r, e, w'. unfold WaitForConfig. rewrite poll_loop. fold cfg.
  rewrite Hrun. repeat split; assumption.
Qed.

(** C6.  When the predicate answers [(false, err)] on each of the first
    [k] snapshots and [(true, nil)] on the next, and the timeout has not
    elapsed when any of those [k] attempts comes back, [WaitForConfig]
    returns no error after exactly [k + 1] fetches; as long as the
    policy never lets the backoff shrink below the configured delay,
    consecutive fetches are issued at least that delay apart. *)
Theorem WaitForConfig_converges
        (pm : Protomarshal) (rd : retry.config) (s : sidecar) (accept : Accept pm)
        (options : list retry.Option) (k fuel : nat) (w : World) :
  let cfg := waitPolicy rd options in
  (k < fuel)%nat ->
  (forall d, retry.delay cfg <= d -> retry.delay cfg <= retry.next_delay cfg d) ->
  (forall j, (j < k)%nat ->
     exists c e,
       adminResult pm s "config_dump" admin.ConfigDump
         (cluster_exec (cluster s) (length (execs w) + j) (configCall s)) = inr c
       /\ accept c = (false, Some e)) ->
  (exists c,
      adminResult pm s "config_dump" admin.ConfigDump
        (cluster_exec (cluster s) (length (execs w) + k) (configCall s)) = inr c
      /\ accept c = (true, None)) ->
  (forall j, (j < k)%nat ->
     finishTime (cluster s) (configCall s) cfg (length (execs w)) (clock w)
                (retry.delay cfg) j - clock w < retry.timeout cfg) ->
  exists recs w',
    WaitForConfig pm rd fuel s accept options w = Some (None, w')
    /\ execs w' = (execs w ++ recs)%list
    /\ length recs = S k
    /\ spaced (retry.delay cfg) recs
    /\ length (sleeps w') = (length (sleeps w) + k)%nat.
Proof.
  intros cfg Hfuel Hgrow Hretry Hacc Htime.
  destruct (loop_converges pm s accept cfg (clock w) k fuel (retry.delay cfg) None None w)
    as (r0 & rest & v' & w' & Hrun & Hex & Hn & _ & Hsp & Hsl); auto; try lia.
  exists (r0 :: rest), w'. unfold WaitForConfig. rewrite poll_loop. fold cfg.
  rewrite Hrun. repeat split; try assumption. cbn. lia.
Qed.

(** C9.  [WaitForConfig] polls under the policy its options build on
    top of two defaults.  Without options that policy has a backoff
    delay of 100ms and a total timeout of 30s, whatever the retry
    package's own defaults are; the caller's options are applied after
    these two, so a timeout or a delay the caller passes is the one in
    force. *)
Theorem waitPolicy_defaults (pm : Protomarshal) (rd : retry.config) :
  (forall fuel s accept options w,
      WaitForConfig pm rd fuel s accept options w
      = match retry.loop (attempt pm s accept) (waitPolicy rd options) (clock w) fuel
                         (retry.delay (waitPolicy rd options)) None (None, w) with
        | None => None
        | Some ((_, Some err), (cfg, w')) =>
            Some (Some (waitError err (configDumpStr pm cfg)), w')
        | Some ((_, None), (_, w')) => Some (None, w')
        end)
  /\ retry.delay (waitPolicy rd []) = 100000000
  /\ retry.timeout (waitPolicy rd []) = 30000000000
  /\ (forall options,
        waitPolicy rd options = retry.applyOptions options (waitPolicy rd []))
  /\ (forall options t,
        retry.timeout (waitPolicy rd (options ++ [retry.Timeout t])) = t)
  /\ (forall options d,
        retry.delay (waitPolicy rd (options ++ [retry.BackoffDelay d])) = d).
Proof.
  split.
  { intros fuel s accept options w. unfold WaitForConfig. rewrite poll_loop.
    destruct (retry.loop _ _ _ _ _ _ _) as [[[res [err|]] [cfg w']]|]; reflexivity. }
  split; [reflexivity|]. split; [reflexivity|]. split; [reflexivity|].
  split; intros options x; unfold waitPolicy, waitOptions, retry.applyOptions;
    rewrite app_assoc, fold_left_app; reflexivity.
Qed.

(** * The theorems at work on the sample deployment *)

(** A proxy whose dump is accepted at once. *)
Lemma WaitForConfig_accepts_first_witness :
  exists w',
    WaitForConfig Sample.pm Sample.retryDefaults 1
      (Sample.proxy (Sample.steady "{}" 3)) Sample.acceptAll [] Sample.boot
      = Some (None, w')
    /\ length (execs w') = 1%nat.
Proof.
  destruct (WaitForConfig_accepts_first Sample.pm Sample.retryDefaults
              (Sample.proxy (Sample.steady "{}" 3)) Sample.acceptAll [] 0
              Sample.boot "{}" eq_refl eq_refl) as (w' & Hrun & Hex & _).
  exists w'. split; [exact Hrun|]. rewrite Hex. reflexivity.
Defined.

(** A proxy whose dump is rejected at once. *)
Lemma WaitForConfig_rejection_is_final_witness :
  exists w',
    WaitForConfig Sample.pm Sample.retryDefaults 1
      (Sample.proxy (Sample.steady "{}" 3)) Sample.rejectAll [] Sample.boot
      = Some (Some ("failed waiting for Envoy configuration: envoy config rejected"
                      ++ ". Last config_dump:" ++ nl ++ "  {}"), w')
    /\ length (execs w') = 1%nat
    /\ sleeps w' = [].
Proof.
  destruct (WaitForConfig_rejection_is_final Sample.pm Sample.retryDefaults
              (Sample.proxy (Sample.steady "{}" 3)) Sample.rejectAll [] 0
              Sample.boot "{}" eq_refl eq_refl) as (w' & Hrun & Hex & Hsl).
  exists w'. split; [exact Hrun|]. split; [rewrite Hex; reflexivity | exact Hsl].
Defined.

(** C3, as stated, fails when the snapshot cannot be rendered: the
    first dump is fetched, decoded and rejected, and the diagnostic
    shows the marker [nil] in place of it. *)
Lemma WaitForConfig_rejection_hides_unrenderable :
  ~ rejectionShowsSnapshot Sample.pmNoRender Sample.retryDefaults 1
      (Sample.proxy (Sample.steady "{}" 3)) Sample.rejectAll [] Sample.boot.
Proof.
  intros H. destruct (H "{}" eq_refl eq_refl) as (txt & w' & Hrender & _).
  discriminate Hrender.
Qed.

(** A proxy whose dump embeds a type the decoder does not know: the
    wait ends at once and reports nothing. *)
Lemma WaitForConfig_unparseable_returns_nil_witness :
  exists w',
    WaitForConfig Sample.pm Sample.retryDefaults 1
      (Sample.proxy (Sample.steady "any" 10)) Sample.acceptAll [] Sample.boot
      = Some (None, w')
    /\ length (execs w') = 1%nat.
Proof.
  destruct (WaitForConfig_unparseable_returns_nil Sample.pm Sample.retryDefaults
              (Sample.proxy (Sample.steady "any" 10)) Sample.acceptAll [] 0
              Sample.boot
              (parseError "config_dump"
                 "proto: could not resolve Any message type: type.example/Unknown" "any")
              eq_refl (or_introl eq_refl)) as (w' & Hrun & Hex & _).
  exists w'. split; [exact Hrun|]. rewrite Hex. reflexivity.
Defined.

(** The flaky proxy under a predicate that is not satisfied yet: the
    wait fails on its second fetch. *)
Lemma WaitForConfig_reports_last_fetch_witness :
  exists e w',
    WaitForConfig Sample.pm Sample.retryDefaults 10 (Sample.proxy Sample.flaky)
      Sample.notYet [retry.Timeout 100] Sample.boot = Some (Some e, w')
    /\ exists cause recs,
         execs w' = (execs Sample.boot ++ recs)%list
         /\ recs <> []
         /\ e = waitError cause
                  (configDumpStr Sample.pm
                     (lastFetched Sample.pm (Sample.proxy Sample.flaky) recs)).
Proof.
  do 2 eexists. split; [vm_compute; reflexivity|].
  apply (WaitForConfig_reports_last_fetch Sample.pm Sample.retryDefaults
           (Sample.proxy Sample.flaky) Sample.notYet [retry.Timeout 100] 10 Sample.boot).
  vm_compute. reflexivity.
Defined.

(** C1, as stated, fails on the flaky proxy: its first dump was fetched
    and decoded, the second fetch failed, and the diagnostic of the
    failed wait says [nil] instead of showing the first dump. *)
Lemma WaitForConfig_forgets_decoded_snapshot :
  ~ reportsLastDecoded Sample.pm Sample.retryDefaults 10 (Sample.proxy Sample.flaky)
      Sample.notYet [retry.Timeout 100] Sample.boot.
Proof.
  intros H. edestruct H as [cause E]; [vm_compute; reflexivity|].
  apply (f_equal (fun x => has_suffix x "  {}")) in E.
  replace (configDumpStr _ _) with "  {}" in E by (vm_compute; reflexivity).
  unfold waitError in E.
  rewrite (has_suffix_after _ _ _
             (has_suffix_after _ _ _
                (has_suffix_after _ _ _
                   (has_suffix_after _ _ _ (has_suffix_refl "  {}"))))) in E.
  vm_compute in E. discriminate.
Qed.

(** A proxy that never gets its listener, polled for 250ns with the
    default 100ms delay. *)
Lemma WaitForConfig_transient_until_timeout_witness :
  exists recs r w',
    WaitForConfig Sample.pm Sample.retryDefaults 251
      (Sample.proxy (Sample.steady "{}" 3)) Sample.notYet [retry.Timeout 250] Sample.boot
      = Some (Some ("failed waiting for Envoy configuration: listener missing"
                      ++ ". Last config_dump:" ++ nl ++ "  {}"), w')
    /\ execs w' = (execs Sample.boot ++ recs)%list
    /\ lastRecord recs = Some r
    /\ polledUntil (clock Sample.boot + 250) recs.
Proof.
  destruct (WaitForConfig_transient_until_timeout Sample.pm Sample.retryDefaults
              (Sample.proxy (Sample.steady "{}" 3)) Sample.notYet [retry.Timeout 250]
              251 Sample.boot) as (recs & r & e & w' & Hrun & Hex & Hlast & _ & Hpoll).
  - reflexivity.
  - cbn. intros d Hd. lia.
  - intros i _. destruct i; discriminate.
  - cbn. lia.
  - exists recs, r, w'. split; [|repeat split; assumption].
    assert (Hc : exists w0,
               WaitForConfig Sample.pm Sample.retryDefaults 251
                 (Sample.proxy (Sample.steady "{}" 3)) Sample.notYet
                 [retry.Timeout 250] Sample.boot
               = Some (Some ("failed waiting for Envoy configuration: listener missing"
                               ++ ". Last config_dump:" ++ nl ++ "  {}"), w0))
      by (eexists; vm_compute; reflexivity).
    destruct Hc as (w0 & Hc). rewrite Hc in Hrun.
    assert (w0 = w') by congruence. subst w0. exact Hc.
Defined.

(** C5, as stated, fails on the flaky proxy: every outcome is transient,
    the first dump was fetched and decoded, the second fetch fails as
    the budget runs out, and the error shows [nil] where the decoded
    dump would be. *)
Lemma WaitForConfig_exhaustion_forgets_snapshot :
  ~ exhaustionShowsLastDecoded Sample.pm Sample.retryDefaults 10
      (Sample.proxy Sample.flaky) Sample.notYet [retry.Timeout 100] Sample.boot.
Proof.
  intros H. destruct H as (recs & r & e & w' & Hrun & Hex & _ & _);
    [intros i _ E; destruct i as [|[|[|i]]]; vm_compute in E; discriminate E|].
  assert (Hc : exists txt w0,
             WaitForConfig Sample.pm Sample.retryDefaults 10 (Sample.proxy Sample.flaky)
               Sample.notYet [retry.Timeout 100] Sample.boot = Some (Some txt, w0)
             /\ has_suffix txt "  {}" = false
             /\ configDumpStr Sample.pm
                  (lastDecoded Sample.pm (Sample.proxy Sample.flaky) (execs w0))
                = "  {}")
    by (do 2 eexists; split; [vm_compute; reflexivity | split; vm_compute; reflexivity]).
  destruct Hc as (txt & w0 & Hc & Hsuf & Hdump).
  rewrite Hc in Hrun.
  assert (Hw : w0 = w') by congruence.
  assert (Htxt : txt = ("failed waiting for Envoy configuration: " ++ e
                          ++ ". Last config_dump:" ++ nl
                          ++ configDumpStr Sample.pm
                               (lastDecoded Sample.pm (Sample.proxy Sample.flaky) recs))%string)
    by congruence.
  subst w0. cbn in Hex. rewrite <- Hex, Hdump in Htxt. rewrite Htxt in Hsuf.
  rewrite (has_suffix_after _ _ _
             (has_suffix_after _ _ _
                (has_suffix_after _ _ _
                   (has_suffix_after _ _ _ (has_suffix_refl "  {}"))))) in Hsuf.
  discriminate Hsuf.
Qed.

(** A proxy that gets its listener on the third dump. *)
Lemma WaitForConfig_converges_witness :
  exists recs w',
    WaitForConfig Sample.pm Sample.retryDefaults 3 (Sample.proxy Sample.converging)
      Sample.wantsListener [] Sample.boot = Some (None, w')
    /\ execs w' = (execs Sample.boot ++ recs)%list
    /\ length recs = 3%nat
    /\ spaced 100000000 recs
    /\ length (sleeps w') = (length (sleeps Sample.boot) + 2)%nat.
Proof.
  apply (WaitForConfig_converges Sample.pm Sample.retryDefaults
           (Sample.proxy Sample.converging) Sample.wantsListener [] 2 3 Sample.boot).
  - lia.
  - cbn. intros d Hd. lia.
  - intros j Hj. exists "{}", "listener missing".
    destruct j as [|[|j]]; [split; reflexivity | split; reflexivity | lia].
  - exists "{listener}". split; reflexivity.
  - intros j Hj. destruct j as [|[|j]]; [reflexivity | reflexivity | lia].
Defined.

(** * Beyond the claims: the accessor's errors *)

Lemma embeds_here (part rest : string) : embeds (part ++ rest) part.
Proof. now exists "", rest. Qed.

Lemma embeds_trans (a b c : string) : embeds a b -> embeds b c -> embeds a c.
Proof.
  intros (p1 & q1 & ->) (p2 & q2 & ->).
  exists (p1 ++ p2)%string, (q2 ++ q1)%string.
  now rewrite !append_assoc.
Qed.

Lemma Contains_within (s part sig : string) :
  embeds s part -> Contains part sig = true -> Contains s sig = true.
Proof.
  intros Hs Hp. apply Contains_embeds. apply Contains_embeds in Hp.
  exact (embeds_trans _ _ _ Hs Hp).
Qed.

Ltac embedded :=
  repeat first [apply embeds_refl | apply embeds_here | apply embeds_after].

(** X1.  The error of a failed execution names the pod as
    [namespace/name], the transport error and the command that was
    run; the error of a failed decode names the admin path, quoted,
    and the decoder's own error. *)
Theorem adminRequest_error_anatomy (pm : Protomarshal) (s : sidecar) (path : string)
        (k : admin.MsgKind) (w : World) :
  let r := cluster_exec (cluster s) (length (execs w)) (adminCall s path) in
  let out := adminRequest pm s path k w in
  match reply_err r with
  | Some e =>
      exists txt, fst out = inl txt
                  /\ embeds txt (podNamespace s ++ "/" ++ podName s)
                  /\ embeds txt e
                  /\ embeds txt ("pilot-agent request GET " ++ path)
  | None =>
      match UnmarshalAllowUnknown pm k (reply_stdout r) with
      | inl e =>
          exists txt, fst out = inl txt
                      /\ embeds txt ("'/" ++ path ++ "'")
                      /\ embeds txt e
      | inr _ => True
      end
  end.
Proof.
  intros r out. unfold out. rewrite adminRequest_run. fold r. cbn [fst].
  unfold adminResult. destruct (reply_err r) as [e|].
  - eexists. split; [reflexivity|]. unfold execError, adminCommand. repeat split.
    + exists "failed exec on pod ",
        (": " ++ e ++ ". Command: " ++ ("pilot-agent request GET " ++ path)
              ++ ". Output:" ++ nl ++ reply_stdout r ++ reply_stderr r)%string.
      now rewrite !append_assoc.
    + embedded.
    + embedded.
  - destruct (UnmarshalAllowUnknown pm k (reply_stdout r)) as [e|m]; [|exact I].
    eexists. split; [reflexivity|]. unfold parseError. split.
    + exists "failed parsing Envoy admin response from ",
        (": " ++ e ++ nl ++ "Response JSON: " ++ reply_stdout r)%string.
      now rewrite !append_assoc.
    + embedded.
Qed.

(** * Beyond the claims: one attempt of the poll *)

(** X2.  The decision table of the attempt.  It never asks for a retry
    without giving the cause: a retry carries either the fetch error
    (which then bears neither signature) or the predicate's error.  It
    completes with an error only to report a rejection, by a predicate
    that returned [(false, nil)] on the snapshot just fetched.  It
    completes without error when the predicate accepted that snapshot,
    and also when the fetch failed with a signature error.  The captured
    [cfg] is the fetched snapshot, and nil exactly when the fetch failed. *)
Theorem attempt_decision_table (pm : Protomarshal) (s : sidecar) (accept : Accept pm)
        (v : option (ConfigDump pm)) (w : World) :
  let r := cluster_exec (cluster s) (length (execs w)) (configCall s) in
  let res := adminResult pm s "config_dump" admin.ConfigDump r in
  let out := attempt pm s accept (v, w) in
  let cfg := fst (snd out) in
  match fst out with
  | (Some _, _, _) => False
  | (None, false, None) => False
  | (None, false, Some e) =>
      (cfg = None /\ res = inl e
       /\ Contains e unresolvedAny = false /\ Contains e untypedAny = false)
      \/ (exists c b, cfg = Some c /\ res = inr c /\ accept c = (b, Some e))
  | (None, true, Some e) =>
      e = "envoy config rejected"
      /\ exists c, cfg = Some c /\ res = inr c /\ accept c = (false, None)
  | (None, true, None) =>
      (exists c, cfg = Some c /\ res = inr c /\ accept c = (true, None))
      \/ (cfg = None
          /\ exists e, res = inl e
                       /\ (Contains e unresolvedAny = true
                           \/ Contains e untypedAny = true))
  end.
Proof.
  intros r res out cfg. unfold cfg, out. rewrite attempt_run. fold r.
  cbn [fst snd]. unfold verdict, fetched. cbn [rec_reply]. fold res.
  destruct res as [e|c].
  - destruct (Contains e unresolvedAny) eqn:H1.
    + right. split; [reflexivity|]. exists e. auto.
    + destruct (Contains e untypedAny) eqn:H2.
      * right. split; [reflexivity|]. exists e. auto.
      * left. auto.
  - destruct (accept c) as [[|] [e|]] eqn:Hc.
    + right. exists c, true. auto.
    + left. exists c. auto.
    + right. exists c, false. auto.
    + split; [reflexivity|]. exists c. auto.
Qed.

(** X3.  An attempt is one remote execution, the [config_dump] query in
    the proxy container of the sidecar's pod, and nothing else: no log
    request, no wait.  What it leaves in the world and in the captured
    [cfg] depends neither on the predicate nor on what [cfg] held
    before, so no snapshot of an earlier attempt survives it. *)
Theorem attempt_single_fetch (pm : Protomarshal) (s : sidecar)
        (accept accept' : Accept pm) (v v' : option (ConfigDump pm)) (w : World) :
  let call := mkExecCall (podName s) (podNamespace s) "istio-proxy"
                         "pilot-agent request GET config_dump" in
  let r := cluster_exec (cluster s) (length (execs w)) call in
  let out := attempt pm s accept (v, w) in
  execs (snd (snd out)) = (execs w ++ [mkExecRecord (clock w) call r])%list
  /\ logreqs (snd (snd out)) = logreqs w
  /\ sleeps (snd (snd out)) = sleeps w
  /\ snd out = snd (attempt pm s accept' (v', w)).
Proof.
  intros call r out. unfold out. rewrite !attempt_run. repeat split.
Qed.

(** X4.  The signature is looked for in the whole text of the fetch
    error, so it is found through the wrapping [adminRequest] adds: when
    the body does not decode and the decoder's error bears one of the
    two signatures, the attempt completes without error and with a nil
    [cfg].  It is found just as well when the body itself quotes a
    signature while the decoder complains about something else. *)
Theorem attempt_signature_through_wrapping (pm : Protomarshal) (s : sidecar)
        (accept : Accept pm) (v : option (ConfigDump pm)) (w : World) (e : error) :
  let r := cluster_exec (cluster s) (length (execs w)) (configCall s) in
  reply_err r = None ->
  UnmarshalAllowUnknown pm admin.ConfigDump (reply_stdout r) = inl e ->
  (Contains e unresolvedAny = true \/ Contains e untypedAny = true
   \/ Contains (reply_stdout r) unresolvedAny = true
   \/ Contains (reply_stdout r) untypedAny = true) ->
  fst (attempt pm s accept (v, w)) = (None, true, None)
  /\ fst (snd (attempt pm s accept (v, w))) = None.
Proof.
  intros r Herr Hdec Hsig. rewrite attempt_run. fold r. cbn [fst snd].
  assert (Hres : adminResult pm s "config_dump" admin.ConfigDump r
                 = inl (parseError "config_dump" e (reply_stdout r)))
    by (unfold adminResult; now rewrite Herr, Hdec).
  split.
  - apply (verdict_unparseable pm s accept _ _ Hres).
    destruct Hsig as [H|[H|[H|H]]]; [left|right|left|right];
      (eapply Contains_within; [|exact H]); unfold parseError; embedded.
  - unfold fetched. cbn [rec_reply]. now rewrite Hres.
Qed.

(** X5.  The same holds for an execution that fails: when the captured
    output quotes one of the two signatures, the attempt completes
    without error although nothing was decoded, and the transport
    failure is not retried. *)
Theorem attempt_signature_in_output (pm : Protomarshal) (s : sidecar)
        (accept : Accept pm) (v : option (ConfigDump pm)) (w : World) (e : error) :
  let r := cluster_exec (cluster s) (length (execs w)) (configCall s) in
  reply_err r = Some e ->
  (Contains (reply_stdout r ++ reply_stderr r) unresolvedAny = true
   \/ Contains (reply_stdout r ++ reply_stderr r) untypedAny = true) ->
  fst (attempt pm s accept (v, w)) = (None, true, None)
  /\ fst (snd (attempt pm s accept (v, w))) = None.
Proof.
  intros r Herr Hsig. rewrite attempt_run. fold r. cbn [fst snd].
  assert (Hres : adminResult pm s "config_dump" admin.ConfigDump r
                 = inl (execError s e (adminCommand "config_dump")
                                  (reply_stdout r ++ reply_stderr r)))
    by (unfold adminResult; now rewrite Herr).
  split.
  - apply (verdict_unparseable pm s accept _ _ Hres).
    destruct Hsig as [H|H]; [left|right];
      (eapply Contains_within; [|exact H]); apply execError_embeds.
  - unfold fetched. cbn [rec_reply]. now rewrite Hres.
Qed.

(** * Beyond the claims: the sidecar of a pod and the fail-fast variants *)

(** X6.  Whatever is asked of the sidecar built for a pod goes to that
    pod: every snapshot accessor executes its command with the pod's
    name, the pod's namespace and the container [istio-proxy], on the
    cluster the sidecar was built with, and [Logs] asks for the logs of
    the same container of the same pod. *)
Theorem newSidecar_addressing (pm : Protomarshal) (pod : corev1.Pod) (cl : Cluster)
        (k : admin.MsgKind) (w : World) :
  let s := newSidecar pod cl in
  let call := mkExecCall (corev1.Name pod) (corev1.Namespace pod) "istio-proxy"
                         ("pilot-agent request GET " ++ endpoint k) in
  let asked := mkLogsCall (corev1.Name pod) (corev1.Namespace pod) "istio-proxy" false in
  execs (snd (snapshot pm k s w))
    = (execs w ++ [mkExecRecord (clock w) call (cluster_exec cl (length (execs w)) call)])%list
  /\ logreqs (snd (Logs s w)) = (logreqs w ++ [asked])%list
  /\ fst (Logs s w) = cluster_logs cl (length (logreqs w)) asked.
Proof.
  intros s call asked. rewrite snapshot_run, adminRequest_run. repeat split.
Qed.

(** X7.  A fail-fast snapshot accessor either returns the decoded
    message and leaves the failure state of the test alone, or aborts
    the test with the error of the plain accessor as its failure
    message; it never comes back without a message.  Either way it
    marks itself as a helper once and issues the one execution of the
    plain accessor. *)
Theorem snapshotOrFail_outcome (pm : Protomarshal) (k : admin.MsgKind) (s : sidecar)
        (t : test.Failer) (w : World) :
  let plain := snapshot pm k s w in
  let out := snapshotOrFail pm k s (t, w) in
  snd (snd out) = snd plain
  /\ test.helpers (fst (snd out)) = S (test.helpers t)
  /\ match fst plain with
     | inr m => fst out = Some m /\ test.failure (fst (snd out)) = test.failure t
     | inl err => fst out = None /\ test.failure (fst (snd out)) = Some err
     end.
Proof.
  intros plain out. unfold out, plain.
  destruct k; cbn [snapshotOrFail snapshot];
    unfold InfoOrFail, ConfigOrFail, ClustersOrFail, ListenersOrFail,
           test.bind, test.run, test.Helper, test.Fatal, test.ret;
    cbn [fst snd];
    match goal with
    | |- context [?f pm s w] => destruct (f pm s w) as [[err|m] w1]
    end; repeat split.
Qed.

(** X8.  [LogsOrFail] returns the log text the cluster answered when
    the cluster reported no error, and otherwise aborts the test with
    the cluster's error, unwrapped, as the failure message; the text
    that came with an error is dropped. *)
Theorem LogsOrFail_outcome (s : sidecar) (t : test.Failer) (w : World) :
  let asked := mkLogsCall (podName s) (podNamespace s) "istio-proxy" false in
  let out := LogsOrFail s (t, w) in
  logreqs (snd (snd out)) = (logreqs w ++ [asked])%list
  /\ execs (snd (snd out)) = execs w
  /\ match cluster_logs (cluster s) (length (logreqs w)) asked with
     | (text, None) =>
         fst out = Some text /\ test.failure (fst (snd out)) = test.failure t
     | (_, Some err) =>
         fst out = None /\ test.failure (fst (snd out)) = Some err
     end.
Proof.
  intros asked out. unfold out, LogsOrFail, Logs, PodLogs,
    test.bind, test.run, test.Helper, test.Fatal, test.ret.
  cbn [fst snd]. unfold proxyContainerName. fold asked.
  destruct (cluster_logs (cluster s) (length (logreqs w)) asked) as [text [err|]];
    repeat split.
Qed.

(** X9.  [WaitForConfigOrFail] fails the test exactly when
    [WaitForConfig] returns an error, with that error, diagnostic
    included, as the failure message; when [WaitForConfig] returns nil
    the test goes on with its failure state untouched.  The world is
    left as [WaitForConfig] leaves it. *)
Theorem WaitForConfigOrFail_outcome
        (pm : Protomarshal) (rd : retry.config) (fuel : nat) (s : sidecar)
        (accept : Accept pm) (options : list retry.Option)
        (t : test.Failer) (w : World) :
  match WaitForConfig pm rd fuel s accept options w with
  | None => WaitForConfigOrFail pm rd fuel s accept options (t, w) = None
  | Some (res, w') =>
      exists out t',
        WaitForConfigOrFail pm rd fuel s accept options (t, w) = Some (out, (t', w'))
        /\ test.helpers t' = S (test.helpers t)
        /\ match res with
           | None => out = Some tt /\ test.failure t' = test.failure t
           | Some err => out = None /\ test.failure t' = Some err
           end
  end.
Proof.
  unfold WaitForConfigOrFail, test.Helper, test.Fatal. cbn [fst snd].
  destruct (WaitForConfig pm rd fuel s accept options w) as [[[err|] w']|];
    [| |reflexivity]; do 2 eexists; repeat split.
Qed.

(** * Beyond the claims: the whole wait *)

Section WaitFacts.

Variable pm : Protomarshal.
Variable s : sidecar.
Variable accept : Accept pm.
Variable cfg : retry.config.
Variable start : Z.

Lemma verdict_no_result (r : ExecReply) : fst (fst (verdict pm s accept r)) = None.
Proof.
  unfold verdict.
  destruct (adminResult pm s "config_dump" admin.ConfigDump r) as [e|c].
  - destruct (Contains e unresolvedAny); [reflexivity|].
    destruct (Contains e untypedAny); reflexivity.
  - destruct (accept c) as [[|] [e|]]; reflexivity.
Qed.

Lemma verdict_success (r : ExecReply) :
  verdict pm s accept r = (None, true, None) ->
  (exists c, adminResult pm s "config_dump" admin.ConfigDump r = inr c
             /\ accept c = (true, None))
  \/ (exists e, adminResult pm s "config_dump" admin.ConfigDump r = inl e
                /\ (Contains e unresolvedAny = true \/ Contains e untypedAny = true)).
Proof.
  unfold verdict.
  destruct (adminResult pm s "config_dump" admin.ConfigDump r) as [e|c].
  - destruct (Contains e unresolvedAny) eqn:H1; [right; eauto|].
    destruct (Contains e untypedAny) eqn:H2; [right; eauto|discriminate].
  - destruct (accept c) as [[|] [e|]] eqn:Hc; try discriminate.
    intros _. left. exists c. now rewrite Hc.
Qed.

(** What the loop leaves behind, however it ends. *)
Lemma loop_trace (fuel : nat) :
  forall d lasterr v w res err v' w',
    retry.loop (attempt pm s accept) cfg start fuel d lasterr (v, w)
      = Some ((res, err), (v', w')) ->
    exists recs r,
      execs w' = (execs w ++ recs ++ [r])%list
      /\ Forall (fun x => rec_call x = configCall s) (recs ++ [r])
      /\ logreqs w' = logreqs w
      /\ length (sleeps w') = (length (sleeps w) + length recs)%nat
      /\ clock w <= clock w'
      /\ (err = None -> verdict pm s accept (rec_reply r) = (None, true, None)).
Proof.
  induction fuel as [|fuel IH]; intros d lasterr v w res err v' w' H; [discriminate|].
  rewrite loop_step in H. cbv zeta in H.
  set (r := cluster_exec (cluster s) (length (execs w)) (configCall s)) in H.
  pose proof (verdict_no_result r) as Hnone.
  destruct (verdict pm s accept r) as [[result completed] verr] eqn:Hv.
  cbn in Hnone. subst result.
  destruct completed.
  - inversion H; subst. exists [], (mkExecRecord (clock w) (configCall s) r).
    cbn. repeat split; try lia.
    + repeat constructor.
    + intros ->. exact Hv.
  - destruct (retry.timeout cfg <=? _).
    + inversion H; subst. exists [], (mkExecRecord (clock w) (configCall s) r).
      cbn. repeat split; try lia; [repeat constructor | discriminate].
    + apply IH in H. destruct H as (recs & r' & Hex & Hall & Hlog & Hsl & Hclk & Hnil).
      exists (mkExecRecord (clock w) (configCall s) r :: recs), r'.
      cbn [sleep recordExec execs logreqs sleeps clock] in *.
      repeat split.
      * rewrite Hex. now rewrite <- app_assoc.
      * cbn. constructor; [reflexivity | exact Hall].
      * exact Hlog.
      * rewrite Hsl, length_app. cbn. lia.
      * lia.
      * exact Hnil.
Qed.

End WaitFacts.

(** X10.  However long it polls and however it ends, [WaitForConfig]
    issues nothing but [config_dump] queries to the proxy container of
    its own pod, at least one of them; it never asks for logs, it waits
    once between two consecutive fetches and not after the last, and
    time does not run backwards. *)
Theorem WaitForConfig_only_fetches_config
        (pm : Protomarshal) (rd : retry.config) (s : sidecar) (accept : Accept pm)
        (options : list retry.Option) (fuel : nat) (w w' : World) (res : option error) :
  WaitForConfig pm rd fuel s accept options w = Some (res, w') ->
  exists recs,
    execs w' = (execs w ++ recs)%list
    /\ recs <> []
    /\ Forall (fun x => rec_call x
                        = mkExecCall (podName s) (podNamespace s) "istio-proxy"
                                     "pilot-agent request GET config_dump") recs
    /\ logreqs w' = logreqs w
    /\ (length (sleeps w') + 1 = length (sleeps w) + length recs)%nat
    /\ clock w <= clock w'.
Proof.
  unfold WaitForConfig. rewrite poll_loop.
  destruct (retry.loop _ _ _ _ _ _ _) as [[[r0 err] [v w1]]|] eqn:Hrun; [|discriminate].
  destruct (loop_trace _ _ _ _ _ _ _ _ _ _ _ _ _ _ Hrun)
    as (recs & r & Hex & Hall & Hlog & Hsl & Hclk & _).
  intros H. assert (w1 = w') by (destruct err; now inversion H). subst w1.
  exists (recs ++ [r])%list. repeat split; try assumption.
  - now destruct recs.
  - rewrite Hsl, length_app. cbn. lia.
Qed.

(** X11.  When [WaitForConfig] returns nil, its last fetch is the one
    that decided: either that fetch decoded and the predicate returned
    [(true, nil)] on its snapshot, or that fetch failed with an error
    bearing one of the two signatures.  So a nil result alone does not
    tell that the predicate ever accepted a configuration. *)
Theorem WaitForConfig_nil_means
        (pm : Protomarshal) (rd : retry.config) (s : sidecar) (accept : Accept pm)
        (options : list retry.Option) (fuel : nat) (w w' : World) :
  WaitForConfig pm rd fuel s accept options w = Some (None, w') ->
  exists recs r,
    execs w' = (execs w ++ recs)%list
    /\ lastRecord recs = Some r
    /\ ((exists c,
            adminResult pm s "config_dump" admin.ConfigDump (rec_reply r) = inr c
            /\ accept c = (true, None))
        \/ (exists e,
               adminResult pm s "config_dump" admin.ConfigDump (rec_reply r) = inl e
               /\ (Contains e unresolvedAny = true \/ Contains e untypedAny = true))).
Proof.
  unfold WaitForConfig. rewrite poll_loop.
  destruct (retry.loop _ _ _ _ _ _ _) as [[[r0 err] [v w1]]|] eqn:Hrun; [|discriminate].
  destruct (loop_trace _ _ _ _ _ _ _ _ _ _ _ _ _ _ Hrun)
    as (recs & r & Hex & _ & _ & _ & _ & Hnil).
  destruct err as [e|]; intros H; inversion H; subst.
  exists (recs ++ [r])%list, r. split; [exact Hex|]. split; [apply lastRecord_snoc|].
  apply verdict_success. now apply Hnil.
Qed.

(** X12.  When the snapshot of a rejected configuration cannot be
    rendered, the wait still returns its error, with [nil] where the
    dump would be; the error of the renderer is dropped. *)
Theorem WaitForConfig_unrenderable_snapshot
        (pm : Protomarshal) (rd : retry.config) (s : sidecar) (accept : Accept pm)
        (options : list retry.Option) (fuel : nat) (w : World)
        (c : ConfigDump pm) (e : error) :
  let r := cluster_exec (cluster s) (length (execs w)) (configCall s) in
  adminResult pm s "config_dump" admin.ConfigDump r = inr c ->
  accept c = (false, None) ->
  MarshalIndent pm admin.ConfigDump c "  " = inl e ->
  WaitForConfig pm rd (S fuel) s accept options w
    = Some (Some (waitError "envoy config rejected" "nil"),
            recordExec (configCall s) r w).
Proof.
  intros r Hres Hc Hrender. unfold WaitForConfig. rewrite poll_loop, loop_step. cbv zeta.
  fold r. rewrite (verdict_rejected _ _ _ _ _ Hres Hc).
  unfold fetched, configDumpStr. cbn [rec_reply]. rewrite Hres.
  unfold ConfigDump in *. now rewrite Hrender.
Qed.

(** * Beyond the claims: the external deployment *)

(** X13.  [External.build] panics exactly when one of the three
    certificate files under the source tree cannot be read.  Otherwise
    it hands the builder one configuration: the service [external] in
    the deployment's own namespace, serving TLS with the contents of
    those files, with a single subset [v1] whose sidecar injection is
    switched off, and with the dual-stack IP families and policy
    exactly when the context enables dual stack. *)
Theorem build_outcome (ty : deployment.Types) (fw : deployment.Framework ty)
        (e : deployment.External ty) (t : deployment.Context)
        (b : deployment.Builder ty) :
  let file := fun name =>
    deployment.AsString fw
      (deployment.Join fw (deployment.IstioSrc fw) ("tests/testdata/certs/dns/" ++ name)) in
  match file "root-cert.pem", file "cert-chain.pem", file "key.pem" with
  | Some rootCert, Some clientCert, Some key =>
      exists config,
        deployment.build fw e t b = Some (deployment.WithConfig fw b config)
        /\ deployment.Service config = "external"
        /\ deployment.Namespace config = deployment.ExternalNamespace e
        /\ deployment.DefaultHostHeader config = "fake.external.com"
        /\ deployment.TLS config
           = Some (deployment.mkTLSSettings rootCert clientCert key "server.default.svc")
        /\ deployment.Subsets config
           = [deployment.mkSubsetConfig ty "v1"
                [(deployment.SidecarInject fw, deployment.mkAnnotationValue "false")]]
        /\ deployment.IPFamilies config
           = (if deployment.EnableDualStack t then "IPv6, IPv4" else "")
        /\ deployment.IPFamilyPolicy config
           = (if deployment.EnableDualStack t then "RequireDualStack" else "")
  | _, _, _ => deployment.build fw e t b = None
  end.
Proof.
  intros file. unfold deployment.build.
  change (deployment.AsString fw
            (deployment.Join fw (deployment.IstioSrc fw)
               "tests/testdata/certs/dns/root-cert.pem")) with (file "root-cert.pem").
  change (deployment.AsString fw
            (deployment.Join fw (deployment.IstioSrc fw)
               "tests/testdata/certs/dns/cert-chain.pem")) with (file "cert-chain.pem").
  change (deployment.AsString fw
            (deployment.Join fw (deployment.IstioSrc fw)
               "tests/testdata/certs/dns/key.pem")) with (file "key.pem").
  destruct (file "root-cert.pem"); [|reflexivity].
  destruct (file "cert-chain.pem"); [|reflexivity].
  destruct (file "key.pem"); [|reflexivity].
  eexists. split; [reflexivity|].
  destruct (deployment.EnableDualStack t); repeat split.
Qed.

(** * The further theorems at work *)

(** A dump the decoder refuses for its unknown embedded type. *)
Lemma attempt_signature_through_wrapping_witness :
  fst (attempt Sample.pm (Sample.proxy (Sample.steady "any" 10)) Sample.notYet
               (None, Sample.boot)) = (None, true, None)
  /\ fst (snd (attempt Sample.pm (Sample.proxy (Sample.steady "any" 10)) Sample.notYet
                       (None, Sample.boot))) = None.
Proof.
  apply (attempt_signature_through_wrapping Sample.pm
           (Sample.proxy (Sample.steady "any" 10)) Sample.notYet None Sample.boot
           "proto: could not resolve Any message type: type.example/Unknown").
  - reflexivity.
  - reflexivity.
  - left. vm_compute. reflexivity.
Defined.

(** An execution that fails while quoting the signature. *)
Lemma attempt_signature_in_output_witness :
  fst (attempt Sample.pm (Sample.proxy Sample.quoting) Sample.notYet
               (None, Sample.boot)) = (None, true, None)
  /\ fst (snd (attempt Sample.pm (Sample.proxy Sample.quoting) Sample.notYet
                       (None, Sample.boot))) = None.
Proof.
  apply (attempt_signature_in_output Sample.pm (Sample.proxy Sample.quoting)
           Sample.notYet None Sample.boot "exit 1").
  - reflexivity.
  - left. vm_compute. reflexivity.
Defined.

(** The converging proxy: three fetches, two waits, no log request. *)
Lemma WaitForConfig_only_fetches_config_witness :
  exists w',
    WaitForConfig Sample.pm Sample.retryDefaults 3 (Sample.proxy Sample.converging)
      Sample.wantsListener [] Sample.boot = Some (None, w')
    /\ exists recs,
         execs w' = (execs Sample.boot ++ recs)%list
         /\ recs <> []
         /\ Forall (fun x => rec_call x
                             = mkExecCall "a-v1" "echo" "istio-proxy"
                                          "pilot-agent request GET config_dump") recs
         /\ logreqs w' = logreqs Sample.boot
         /\ (length (sleeps w') + 1 = length (sleeps Sample.boot) + length recs)%nat
         /\ clock Sample.boot <= clock w'.
Proof.
  eexists. split; [vm_compute; reflexivity|].
  apply (WaitForConfig_only_fetches_config Sample.pm Sample.retryDefaults
           (Sample.proxy Sample.converging) Sample.wantsListener [] 3 Sample.boot _ None).
  vm_compute. reflexivity.
Defined.

(** The converging proxy: the last dump is the accepted one. *)
Lemma WaitForConfig_nil_means_witness :
  exists w',
    WaitForConfig Sample.pm Sample.retryDefaults 3 (Sample.proxy Sample.converging)
      Sample.wantsListener [] Sample.boot = Some (None, w')
    /\ exists recs r,
         execs w' = (execs Sample.boot ++ recs)%list
         /\ lastRecord recs = Some r
         /\ ((exists c,
                 adminResult Sample.pm (Sample.proxy Sample.converging) "config_dump"
                             admin.ConfigDump (rec_reply r) = inr c
                 /\ Sample.wantsListener c = (true, None))
             \/ (exists e,
                    adminResult Sample.pm (Sample.proxy Sample.converging) "config_dump"
                                admin.ConfigDump (rec_reply r) = inl e
                    /\ (Contains e unresolvedAny = true
                        \/ Contains e untypedAny = true))).
Proof.
  eexists. split; [vm_compute; reflexivity|].
  apply (WaitForConfig_nil_means Sample.pm Sample.retryDefaults
           (Sample.proxy Sample.converging) Sample.wantsListener [] 3 Sample.boot).
  vm_compute. reflexivity.
Defined.

(** A rejected dump under a renderer that fails. *)
Lemma WaitForConfig_unrenderable_snapshot_witness :
  exists w',
    WaitForConfig Sample.pmNoRender Sample.retryDefaults 1
      (Sample.proxy (Sample.steady "{}" 3)) Sample.rejectAll [] Sample.boot
    = Some (Some (waitError "envoy config rejected" "nil"), w').
Proof.
  eexists.
  apply (WaitForConfig_unrenderable_snapshot Sample.pmNoRender Sample.retryDefaults
           (Sample.proxy (Sample.steady "{}" 3)) Sample.rejectAll [] 0 Sample.boot
           "{}" "cannot render"); reflexivity.
Defined.

(** A body that is no JSON object fails the test that asked for the
    server info, with the accessor's error as the message. *)
Example InfoOrFail_on_garbage :
  let out := InfoOrFail Sample.pm (newSidecar Fixture.pod (Sample.steady "garbage" 1))
                        (Fixture.started, Sample.boot) in
  fst out = None
  /\ test.failure (fst (snd out))
     = Some (parseError "server_info" "syntax error" "garbage").
Proof. split; reflexivity. Qed.

(** Without the key file the external deployment cannot be built; with
    it, the builder receives the one service. *)
Example build_on_fixture :
  deployment.build (Fixture.framework false) Fixture.external
                   (deployment.mkContext true) ["a"] = None
  /\ deployment.build (Fixture.framework true) Fixture.external
                      (deployment.mkContext true) ["a"] = Some ["a"; "external"].
Proof. split; reflexivity. Qed.
